(** * Resident directory backend: primary-photo invariant, access policy,
    resident filters and registration

    A shallow embedding of [api/models.py], [api/serializers.py] and
    [api/views.py].  The photo table is a finite map from primary keys to
    rows; code that writes to it runs in a small monad that threads the
    table, propagates exceptions and records every state the database
    commits, so that both the end state of a write and the states a
    concurrent reader may see in between can be talked about. *)

From stdpp Require Import gmap strings list fin_maps.
From Stdlib Require Import ZArith Ascii Sorting.Sorted Sorting.Permutation.

Open Scope nat_scope.

(* ===================================================================== *)
(** ** Data model ([api/models.py]) *)
(* ===================================================================== *)

(** Columns of the [Photo] table other than the primary key. *)
Record PhotoRow := mkPhotoRow {
  resident : nat;          (* foreign key to Resident *)
  image : string;
  is_primary : bool;
  uploaded_at : Z
}.

(** A [Photo] model instance held in memory: [pk] is [None] until the
    instance has been inserted. *)
Record Photo := mkPhoto {
  pk : option nat;
  row : PhotoRow
}.

Record Resident := mkResident {
  resident_pk : nat;
  first_name : string;
  last_name : string;
  apartment : string;
  phone : string;
  email : string;
  is_active : bool
}.

Record User := mkUser {
  username : string;
  user_email : string;
  password : string
}.

Abbreviation PhotoTable := (gmap nat PhotoRow).

Global Instance PhotoRow_eq_dec : EqDecision PhotoRow.
Proof. solve_decision. Defined.

Global Instance Resident_eq_dec : EqDecision Resident.
Proof. solve_decision. Defined.

Definition with_is_primary (b : bool) (r : PhotoRow) : PhotoRow :=
  mkPhotoRow (resident r) (image r) b (uploaded_at r).

Definition with_uploaded_at (t : Z) (r : PhotoRow) : PhotoRow :=
  mkPhotoRow (resident r) (image r) (is_primary r) t.

(* ===================================================================== *)
(** ** Database monad: state, exceptions and the log of committed states *)
(* ===================================================================== *)

Inductive exn := Http404 | DatabaseError | ValueError.

Inductive outcome (A : Type) :=
| Ok (a : A)
| Raise (e : exn).
Arguments Ok {A} a.
Arguments Raise {A} e.

(** Result of running a computation from a table: what it returned, the
    table it leaves, and the tables that became visible to other
    connections on the way, oldest first. *)
Record run (A : Type) := mkRun {
  result : outcome A;
  final : PhotoTable;
  committed : list PhotoTable
}.
Arguments mkRun {A} _ _ _.
Arguments result {A} _.
Arguments final {A} _.
Arguments committed {A} _.

Definition DB (A : Type) : Type := PhotoTable -> run A.

Definition ret {A} (a : A) : DB A := fun t => mkRun (Ok a) t [].

Definition bind {A B} (m : DB A) (f : A -> DB B) : DB B := fun t =>
  let r := m t in
  match result r with
  | Ok a =>
      let r' := f a (final r) in
      mkRun (result r') (final r') (committed r ++ committed r')
  | Raise e => mkRun (Raise e) (final r) (committed r)
  end.

Definition raise {A} (e : exn) : DB A := fun t => mkRun (Raise e) t [].

(** A read. *)
Definition query {A} (f : PhotoTable -> A) : DB A := fun t => mkRun (Ok (f t)) t [].

(** A write statement outside any [atomic] block: Django's connection is
    in autocommit mode, so the statement is committed on its own. *)
Definition execute (f : PhotoTable -> PhotoTable) : DB unit := fun t =>
  mkRun (Ok tt) (f t) [f t].

(** [with transaction.atomic(): m]: nothing [m] writes is visible until
    the block exits; an exception leaving the block rolls it back. *)
Definition atomic {A} (m : DB A) : DB A := fun t =>
  let r := m t in
  match result r with
  | Ok a => mkRun (Ok a) (final r) [final r]
  | Raise e => mkRun (Raise e) t []
  end.

Declare Scope db_scope.
Delimit Scope db_scope with db.
Notation "x <- m ;; k" := (bind m (fun x => k))
  (at level 100, m at next level, right associativity) : db_scope.
Notation "m ;;; k" := (bind m (fun _ => k))
  (at level 100, right associativity) : db_scope.
Open Scope db_scope.

(* ===================================================================== *)
(** ** [Photo.save] *)
(* ===================================================================== *)

Inductive column := col_resident | col_image | col_is_primary | col_uploaded_at.

Global Instance column_eq_dec : EqDecision column.
Proof. solve_decision. Defined.

(** The row an [UPDATE] of the columns [cols] leaves, taking the new values
    from the instance's row [new]. *)
Definition write_columns (cols : list column) (new old : PhotoRow) : PhotoRow :=
  mkPhotoRow
    (if bool_decide (col_resident ∈ cols) then resident new else resident old)
    (if bool_decide (col_image ∈ cols) then image new else image old)
    (if bool_decide (col_is_primary ∈ cols) then is_primary new else is_primary old)
    (if bool_decide (col_uploaded_at ∈ cols) then uploaded_at new else uploaded_at old).

(** [Photo.objects.filter(resident=r, is_primary=True).exclude(pk=k)
      .update(is_primary=False)]; [exclude(pk=None)] excludes no row. *)
Definition demoted (r : nat) (k : option nat) (k' : nat) (p : PhotoRow) : PhotoRow :=
  if bool_decide (resident p = r) && is_primary p && negb (bool_decide (k = Some k'))
  then with_is_primary false p else p.

Definition demote_others (r : nat) (k : option nat) (t : PhotoTable) : PhotoTable :=
  map_imap (fun k' p => Some (demoted r k k' p)) t.

(** [models.Model.save] for a photo.  Without [update_fields]: an instance
    without a key, or whose key has no row, is inserted ([auto_now_add]
    stamps [uploaded_at]); otherwise all columns of its row are updated.
    With an empty [update_fields] nothing happens; with a non-empty one only
    these columns are written, and a missing key or row is an error. *)
Definition Model_save (now : Z) (update_fields : option (list column))
    (self : Photo) : DB Photo :=
  match update_fields with
  | Some [] => ret self
  | Some cols =>
      match pk self with
      | None => raise ValueError
      | Some k =>
          old <- query (fun t => t !! k) ;;
          match old with
          | None => raise DatabaseError
          | Some o =>
              execute (insert k (write_columns cols (row self) o)) ;;;
              ret self
          end
      end
  | None =>
      match pk self with
      | None =>
          k <- query (fun t => fresh (dom t)) ;;
          let r := with_uploaded_at now (row self) in
          execute (insert k r) ;;;
          ret (mkPhoto (Some k) r)
      | Some k =>
          old <- query (fun t => t !! k) ;;
          match old with
          | Some _ => execute (insert k (row self)) ;;; ret self
          | None =>
              let r := with_uploaded_at now (row self) in
              execute (insert k r) ;;;
              ret (mkPhoto (Some k) r)
          end
      end
  end.

(** [Photo.save]: the row is written first, then the other primaries of
    the same resident are demoted. *)
Definition Photo_save (now : Z) (update_fields : option (list column))
    (self : Photo) : DB Photo :=
  self' <- Model_save now update_fields self ;;
  if is_primary (row self') then
    execute (demote_others (resident (row self')) (pk self')) ;;;
    ret self'
  else ret self'.

(* ===================================================================== *)
(** ** [PhotoSerializer] ([api/serializers.py]) *)
(* ===================================================================== *)

(** [validated_data]: the writable serializer fields the client sent. *)
Record PhotoAttrs := mkPhotoAttrs {
  attr_resident : option nat;
  attr_image : option string;
  attr_is_primary : option bool
}.

(** [for attr, value in validated_data.items(): setattr(instance, attr, value)] *)
Definition setattrs (d : PhotoAttrs) (r : PhotoRow) : PhotoRow :=
  mkPhotoRow
    (default (resident r) (attr_resident d))
    (default (image r) (attr_image d))
    (default (is_primary r) (attr_is_primary d))
    (uploaded_at r).

(** [PhotoSerializer.validate]: looks whether the resident already has
    another primary photo, does nothing with the answer ([pass]) and returns
    the attributes as they came. *)
Definition PhotoSerializer_validate (attrs : PhotoAttrs) : PhotoAttrs := attrs.

(** [ModelSerializer.update]: set the attributes, then [instance.save()]. *)
Definition ModelSerializer_update (now : Z) (instance : Photo) (d : PhotoAttrs)
    : DB Photo :=
  Photo_save now None (mkPhoto (pk instance) (setattrs d (row instance))).

(** [PhotoSerializer.update] *)
Definition PhotoSerializer_update (now : Z) (instance : Photo) (d : PhotoAttrs)
    : DB Photo :=
  atomic (
    instance' <- ModelSerializer_update now instance d ;;
    if is_primary (row instance') then
      execute (demote_others (resident (row instance')) (pk instance')) ;;;
      ret instance'
    else ret instance').

(** [ModelSerializer.create]: [Photo.objects.create] on the validated data,
    that is a new instance with the model's defaults, saved with an insert. *)
Definition PhotoSerializer_create (now : Z) (r : nat) (img : string)
    (primary : option bool) : DB Photo :=
  Photo_save now None (mkPhoto None (mkPhotoRow r img (default false primary) 0%Z)).

(* ===================================================================== *)
(** ** Resident listing ([ResidentViewSet.get_queryset]) *)
(* ===================================================================== *)

Definition lower_ascii (c : ascii) : ascii :=
  let n := nat_of_ascii c in
  if Nat.leb 65 n && Nat.leb n 90 then ascii_of_nat (n + 32) else c.

(** [str.lower], on ASCII letters. *)
Fixpoint lower (s : string) : string :=
  match s with
  | EmptyString => EmptyString
  | String c s' => String (lower_ascii c) (lower s')
  end.

Fixpoint contains (s sub : string) : bool :=
  String.prefix sub s ||
  match s with
  | EmptyString => false
  | String _ s' => contains s' sub
  end.

(** The [__icontains] lookup. *)
Definition icontains (field q : string) : bool := contains (lower field) (lower q).

(** Python truth value of a query parameter: present and not empty. *)
Definition truthy (o : option string) : bool :=
  match o with
  | Some (String _ _) => true
  | _ => false
  end.

Record QueryParams := mkQueryParams {
  param_q : option string;
  param_apartment : option string;
  param_is_active : option string
}.

Definition Q_any_field (q : string) (r : Resident) : bool :=
  icontains (first_name r) q ||
  icontains (last_name r) q ||
  icontains (apartment r) q ||
  icontains (phone r) q ||
  icontains (email r) q.

(** [is_active.lower() in ('1', 'true', 'yes')] *)
Definition parse_is_active (s : string) : bool :=
  bool_decide (lower s ∈ ["1"; "true"; "yes"]).

(** Ascending order on the key [(last_name, first_name)]. *)
Definition name_leb (a b : Resident) : bool :=
  match String.compare (last_name a) (last_name b) with
  | Lt => true
  | Gt => false
  | Eq => String.leb (first_name a) (first_name b)
  end.

(** [ORDER BY]: insertion into an ordered list, by a boolean order. *)
Fixpoint insert_sorted {A} (leb : A -> A -> bool) (x : A) (l : list A) : list A :=
  match l with
  | [] => [x]
  | y :: l' => if leb x y then x :: l else y :: insert_sorted leb x l'
  end.

Fixpoint sort_by {A} (leb : A -> A -> bool) (l : list A) : list A :=
  match l with
  | [] => []
  | x :: l' => insert_sorted leb x (sort_by leb l')
  end.

(** [qs.order_by('last_name', 'first_name')] *)
Definition order_by_name (l : list Resident) : list Resident := sort_by name_leb l.

Definition get_queryset (params : QueryParams) (table : list Resident) : list Resident :=
  let qs := table in
  let qs :=
    if truthy (param_q params)
    then List.filter (Q_any_field (default "" (param_q params))) qs else qs in
  let qs :=
    if truthy (param_apartment params)
    then List.filter (fun r => bool_decide (apartment r = default "" (param_apartment params))) qs
    else qs in
  let qs :=
    match param_is_active params with
    | Some s =>
        let val := parse_is_active s in
        List.filter (fun r => bool_decide (is_active r = val)) qs
    | None => qs
    end in
  order_by_name qs.

(* ===================================================================== *)
(** ** Requests, responses and permissions *)
(* ===================================================================== *)

Inductive value :=
| Str (s : string)
| Bool (b : bool)
| Messages (l : list string).

Inductive body :=
| NoContent
| Dict (d : list (string * value))
| PhotoData (p : Photo)
| PhotoListData (l : list Photo)
| ResidentPage (count : nat) (results : list Resident)
| SummaryData (total active inactive photos_total : nat).

Record Response := mkResponse {
  status : nat;
  data : body
}.

Definition HTTP_200_OK := 200.
Definition HTTP_201_CREATED := 201.
Definition HTTP_204_NO_CONTENT := 204.
Definition HTTP_400_BAD_REQUEST := 400.
Definition HTTP_401_UNAUTHORIZED := 401.
Definition HTTP_403_FORBIDDEN := 403.
Definition HTTP_404_NOT_FOUND := 404.

(** What the views read of [request.user]; Django's [AnonymousUser] has
    both flags false. *)
Record RequestUser := mkRequestUser {
  is_authenticated : bool;
  is_staff : bool
}.

(** An authentication class, as far as the response to a denied request
    depends on it: its [WWW-Authenticate] header, if it has one. *)
Record Authenticator := mkAuthenticator {
  authenticate_header : option string
}.

(** [user] is [None] when the framework is configured to leave
    [request.user] as [None] for unauthenticated requests. *)
Record Request := mkRequest {
  user : option RequestUser;
  authenticators : list Authenticator;
  successful_authenticator : option Authenticator
}.

(** Python's [request.user and request.user.<flag>], as a truth value. *)
Definition user_and (flag : RequestUser -> bool) (request : Request) : bool :=
  match user request with
  | Some u => flag u
  | None => false
  end.

(** [ResidentPermissions.has_permission], with [view.action] as [action]. *)
Definition has_permission (request : Request) (action : string) : bool :=
  if bool_decide (action = "destroy") then user_and is_staff request
  else if bool_decide (action ∈ ["list"; "retrieve"]) then
    user_and is_authenticated request
  else if bool_decide (action ∈ ["create"; "update"; "partial_update"]) then
    user_and is_authenticated request
  else user_and is_authenticated request.

(** The framework's permission classes the views name. *)
Definition IsAuthenticated (request : Request) : bool := user_and is_authenticated request.
Definition IsAdminUser (request : Request) : bool := user_and is_staff request.
Definition AllowAny (request : Request) : bool := true.

(** The framework's answer to a failed permission check
    ([APIView.permission_denied] and [handle_exception]): a request that no
    configured authenticator accepted is "not authenticated", which is a 401
    when the first authenticator has a [WWW-Authenticate] header and a 403
    otherwise; any other request is "permission denied", a 403. *)
Definition permission_denied (request : Request) : Response :=
  match authenticators request, successful_authenticator request with
  | a :: _, None =>
      if truthy (authenticate_header a)
      then mkResponse HTTP_401_UNAUTHORIZED
             (Dict [("detail", Str "Authentication credentials were not provided.")])
      else mkResponse HTTP_403_FORBIDDEN
             (Dict [("detail", Str "Authentication credentials were not provided.")])
  | _, _ =>
      mkResponse HTTP_403_FORBIDDEN
        (Dict [("detail", Str "You do not have permission to perform this action.")])
  end.

(** The framework checks the view's permission classes before it calls the
    handler. *)
Definition dispatch {A} (permission_classes : list (Request -> bool))
    (request : Request) (denied : Response -> A) (handler : A) : A :=
  if forallb (fun p => p request) permission_classes then handler
  else denied (permission_denied request).

(** Requests as the framework's authentication step builds them. *)
Definition anonymous_request (auths : list Authenticator) : Request :=
  mkRequest (Some (mkRequestUser false false)) auths None.

Definition authenticated_request (auths : list Authenticator) (a : Authenticator)
    (staff : bool) : Request :=
  mkRequest (Some (mkRequestUser true staff)) auths (Some a).

(* ===================================================================== *)
(** ** Views ([api/views.py]) *)
(* ===================================================================== *)

(** [StandardResultsSetPagination]: the page size is the [page_size]
    parameter when it is a positive number, cut off at [max_page_size], and
    10 otherwise. *)
Definition page_size := 10.
Definition max_page_size := 100.

Definition get_page_size (requested : option nat) : nat :=
  match requested with
  | Some (S n) => Nat.min (S n) max_page_size
  | _ => page_size
  end.

Definition num_pages (count size : nat) : nat :=
  Nat.max 1 ((count + size - 1) / size).

(** [ResidentViewSet.list]: the filtered, ordered queryset, one page of it. *)
Definition ResidentViewSet_list (request : Request) (params : QueryParams)
    (requested_size : option nat) (page : nat) (table : list Resident) : Response :=
  dispatch [fun r => has_permission r "list"] request (fun deny => deny)
    (let qs := get_queryset params table in
     let size := get_page_size requested_size in
     if bool_decide (1 ≤ page ≤ num_pages (length qs) size) then
       mkResponse HTTP_200_OK
         (ResidentPage (length qs) (take size (drop ((page - 1) * size) qs)))
     else mkResponse HTTP_404_NOT_FOUND (Dict [("detail", Str "Invalid page.")])).

(** [get_object] of [ResidentViewSet]: looked up in [get_queryset()]. *)
Definition ResidentViewSet_get_object (params : QueryParams) (table : list Resident)
    (rid : nat) : DB Resident :=
  match List.find (fun r => bool_decide (resident_pk r = rid)) (get_queryset params table) with
  | Some r => ret r
  | None => raise Http404
  end.

(** [resident.photos.all()], in the model's order: newest upload first. *)
Definition uploaded_desc (a b : Photo) : bool :=
  (uploaded_at (row b) <=? uploaded_at (row a))%Z.

Definition photos_of (r : nat) (t : PhotoTable) : list Photo :=
  sort_by uploaded_desc
    (List.filter (fun p => bool_decide (resident (row p) = r))
       (List.map (fun kr => mkPhoto (Some kr.1) kr.2) (map_to_list t))).

(** [Resident.primary_photo]:
    [self.photos.filter(is_primary=True).first()] *)
Definition primary_photo (r : nat) (t : PhotoTable) : option Photo :=
  head (List.filter (fun p => is_primary (row p)) (photos_of r t)).

(** A field of the upload form as it reaches the serializer. *)
Inductive submitted (A : Type) :=
| Missing
| Wellformed (a : A)
| Malformed.
Arguments Missing {A}.
Arguments Wellformed {A} a.
Arguments Malformed {A}.

Record PhotoForm := mkPhotoForm {
  form_image : submitted string;
  form_is_primary : submitted bool
}.

(** [serializer.errors] of [PhotoSerializer(data=data)] when the view has
    put an existing resident's id into [data]: the image is required, the
    flag is optional, a value that does not parse is an error under the
    field's name. *)
Definition PhotoSerializer_errors (form : PhotoForm) : list (string * value) :=
  match form_image form with
  | Missing => [("image", Messages ["No file was submitted."])]
  | Malformed => [("image", Messages ["The submitted data was not a file. Check the encoding type on the form."])]
  | Wellformed _ => []
  end ++
  match form_is_primary form with
  | Malformed => [("is_primary", Messages ["Must be a valid boolean."])]
  | _ => []
  end.

(** [serializer.is_valid()] with [serializer.validated_data]. *)
Definition PhotoSerializer_is_valid (rid : nat) (form : PhotoForm) : option PhotoAttrs :=
  match form_image form, form_is_primary form with
  | Wellformed img, Wellformed b =>
      Some (PhotoSerializer_validate (mkPhotoAttrs (Some rid) (Some img) (Some b)))
  | Wellformed img, Missing =>
      Some (PhotoSerializer_validate (mkPhotoAttrs (Some rid) (Some img) None))
  | _, _ => None
  end.

(** [ResidentViewSet.photos], the nested route [residents/{id}/photos/]. *)
Definition ResidentViewSet_photos (now : Z) (method : string) (params : QueryParams)
    (table : list Resident) (rid : nat) (form : PhotoForm) : DB Response :=
  resident_ <- ResidentViewSet_get_object params table rid ;;
  if bool_decide (lower method = "get") then
    l <- query (photos_of (resident_pk resident_)) ;;
    ret (mkResponse HTTP_200_OK (PhotoListData l))
  else
    match PhotoSerializer_is_valid (resident_pk resident_) form with
    | Some d =>
        photo <- PhotoSerializer_create now (default 0 (attr_resident d))
                   (default "" (attr_image d)) (attr_is_primary d) ;;
        (if is_primary (row photo) then
           execute (demote_others (resident_pk resident_) (pk photo))
         else ret tt) ;;;
        ret (mkResponse HTTP_201_CREATED (PhotoData photo))
    | None =>
        ret (mkResponse HTTP_400_BAD_REQUEST (Dict (PhotoSerializer_errors form)))
    end.

(** [get_object] of [PhotoViewSet] *)
Definition PhotoViewSet_get_object (k : nat) : DB Photo :=
  r <- query (fun t => t !! k) ;;
  match r with
  | Some r => ret (mkPhoto (Some k) r)
  | None => raise Http404
  end.

Definition PhotoViewSet_retrieve (k : nat) : DB Response :=
  photo <- PhotoViewSet_get_object k ;;
  ret (mkResponse HTTP_200_OK (PhotoData photo)).

(** [PhotoViewSet.destroy] *)
Definition PhotoViewSet_destroy (k : nat) : DB Response :=
  photo <- PhotoViewSet_get_object k ;;
  execute (delete k) ;;;
  ret (mkResponse HTTP_204_NO_CONTENT NoContent).

(** [PhotoViewSet.set_primary] *)
Definition PhotoViewSet_set_primary (now : Z) (k : nat) : DB Response :=
  photo <- PhotoViewSet_get_object k ;;
  execute (demote_others (resident (row photo)) (pk photo)) ;;;
  photo' <-
    (if negb (is_primary (row photo)) then
       Photo_save now (Some [col_is_primary])
         (mkPhoto (pk photo) (with_is_primary true (row photo)))
     else ret photo) ;;
  ret (mkResponse HTTP_200_OK (PhotoData photo')).

(** Body of a registration request. *)
Record RegisterData := mkRegisterData {
  data_username : option string;
  data_password : option string;
  data_email : option string
}.

Fixpoint has_at (s : string) : bool :=
  match s with
  | EmptyString => false
  | String c s' => bool_decide (c = "@"%char) || has_at s'
  end.

(** [BaseUserManager.normalize_email]: the part after the last [@] in lower
    case. *)
Fixpoint normalize_email (s : string) : string :=
  match s with
  | EmptyString => EmptyString
  | String c s' =>
      if bool_decide (c = "@"%char) && negb (has_at s') then String c (lower s')
      else String c (normalize_email s')
  end.

(** [User.objects.create_user]: one more row in the account table.  The
    [password] column stands for the hash of the password, and user names are
    taken to be in normal form already. *)
Definition create_user (name mail pass : string) (users : list User)
    : User * list User :=
  let u := mkUser name (normalize_email mail) pass in
  (u, users ++ [u]).

(** [register] *)
Definition register (data : RegisterData) (users : list User) : Response * list User :=
  let username_ := data_username data in
  let password_ := data_password data in
  let email_ := default "" (data_email data) in
  if negb (truthy username_) || negb (truthy password_) then
    (mkResponse HTTP_400_BAD_REQUEST
       (Dict [("detail", Str "username and password are required")]), users)
  else if existsb (fun u => bool_decide (username u = default "" username_)) users then
    (mkResponse HTTP_400_BAD_REQUEST
       (Dict [("detail", Str "Username already exists")]), users)
  else
    let '(u, users') := create_user (default "" username_) email_ (default "" password_) users in
    (mkResponse HTTP_201_CREATED
       (Dict [("success", Bool true); ("username", Str (username u))]), users').

(** [AdminSummaryView]: staff only. *)
Definition AdminSummaryView_get (request : Request) (table : list Resident)
    (t : PhotoTable) : Response :=
  dispatch [IsAdminUser] request (fun deny => deny)
    (mkResponse HTTP_200_OK
       (SummaryData (length table)
          (length (List.filter (fun r => bool_decide (is_active r = true)) table))
          (length (List.filter (fun r => bool_decide (is_active r = false)) table))
          (size t))).

(** [ResidentViewSet.destroy], as far as the permission class decides it:
    [handler] is what the framework's delete does once it is let through. *)
Definition ResidentViewSet_destroy (request : Request) (handler : Response) : Response :=
  dispatch [fun r => has_permission r "destroy"] request (fun deny => deny) handler.

(* ===================================================================== *)
(** ** Write paths to the photo table *)
(* ===================================================================== *)

(** [W_save] is [photo.save()], all columns written, by any instance in
    memory; the one save restricted by [update_fields] in these files is
    inside [set_primary]. *)
Inductive write :=
| W_save (now : Z) (self : Photo)
| W_update (now : Z) (instance : Photo) (d : PhotoAttrs)
| W_upload (now : Z) (params : QueryParams) (table : list Resident) (rid : nat)
    (form : PhotoForm)
| W_set_primary (now : Z) (k : nat)
| W_destroy (k : nat).

(** The table a write leaves. *)
Definition perform (w : write) (t : PhotoTable) : PhotoTable :=
  match w with
  | W_save now self => final (Photo_save now None self t)
  | W_update now i d => final (PhotoSerializer_update now i d t)
  | W_upload now ps tb rid f => final (ResidentViewSet_photos now "post" ps tb rid f t)
  | W_set_primary now k => final (PhotoViewSet_set_primary now k t)
  | W_destroy k => final (PhotoViewSet_destroy k t)
  end.

(** The tables after each write of a sequence, in order. *)
Fixpoint history (ws : list write) (t : PhotoTable) : list PhotoTable :=
  match ws with
  | [] => []
  | w :: ws' => perform w t :: history ws' (perform w t)
  end.

(** Number of photos of resident [r] flagged primary. *)
Definition primary_count (r : nat) (t : PhotoTable) : nat :=
  size (filter (fun kp => resident kp.2 = r ∧ is_primary kp.2 = true) t).

(* ===================================================================== *)
(** ** Further code of the same files *)
(* ===================================================================== *)

(** [PhotoSerializer.get_image_url].  [url] is the storage's URL of a file
    name ([obj.image.url]); [context_request] is [self.context.get("request")]
    and [build_absolute_uri] its method; an image field is true when it
    names a file. *)
Definition get_image_url (url : string → string)
    (build_absolute_uri : Request → string → string)
    (context_request : option Request) (obj : PhotoRow) : option string :=
  if truthy (Some (image obj)) then
    match context_request with
    | Some request => Some (build_absolute_uri request (url (image obj)))
    | None => Some (url (image obj))
    end
  else None.

(** [ResidentSerializer.get_primary_photo_url], for the resident with key
    [r]. *)
Definition get_primary_photo_url (url : string → string)
    (build_absolute_uri : Request → string → string)
    (context_request : option Request) (r : nat) (t : PhotoTable) : option string :=
  match primary_photo r t with
  | Some primary =>
      if truthy (Some (image (row primary))) then
        match context_request with
        | Some request => Some (build_absolute_uri request (url (image (row primary))))
        | None => Some (url (image (row primary)))
        end
      else None
  | None => None
  end.

(** [get_full_url] of [config/urls.py]: [forwarded_port] is
    [request.META.get("HTTP_X_FORWARDED_PORT")]. *)
Definition get_full_url (scheme host : string) (forwarded_port : option string) : string :=
  let host :=
    if negb (contains host ":") && truthy forwarded_port
    then String.append host (String.append ":" (default "" forwarded_port))
    else host in
  String.append scheme (String.append "://" host).

(** The residents on a page of the list response. *)
Definition page_results (resp : Response) : list Resident :=
  match data resp with
  | ResidentPage _ l => l
  | _ => []
  end.

(* ===================================================================== *)
(** ** Sample data *)
(* ===================================================================== *)

Definition photo_a : PhotoRow := mkPhotoRow 7 "a.png" true 10%Z.
Definition photo_b : PhotoRow := mkPhotoRow 7 "b.png" false 20%Z.
Definition photo_c : PhotoRow := mkPhotoRow 8 "c.png" true 30%Z.

(** Resident 7 with photos 1 (primary) and 2; resident 8 with photo 3. *)
Definition sample_photos : PhotoTable :=
  <[1 := photo_a]> (<[2 := photo_b]> (<[3 := photo_c]> ∅)).

Definition ann : Resident := mkResident 7 "Ann" "Lee" "4B" "555" "ann@example.org" true.

Definition bob : Resident := mkResident 8 "Bob" "Lee" "4B" "556" "bob@example.org" true.
Definition cat : Resident := mkResident 9 "Cat" "Smith" "2A" "557" "cat@example.org" false.

Definition sample_users : list User := [mkUser "ann" "ann@example.org" "pbkdf2$1"].

Definition sample_writes : list write :=
  [W_save 10%Z (mkPhoto None (mkPhotoRow 7 "a.png" true 0%Z));
   W_upload 20%Z (mkQueryParams None None None) [ann] 7
     (mkPhotoForm (Wellformed "b.png") (Wellformed true));
   W_update 30%Z (mkPhoto (Some 0) (mkPhotoRow 7 "a.png" false 10%Z))
     (mkPhotoAttrs None None (Some true));
   W_set_primary 40%Z 1;
   W_destroy 1].

(* ===================================================================== *)
(** ** Notions used to state and prove the properties *)
(* ===================================================================== *)

(** No two rows of one resident are both flagged primary. *)
Definition unique_primary (t : PhotoTable) : Prop :=
  ∀ k1 k2 p1 p2,
    t !! k1 = Some p1 → t !! k2 = Some p2 →
    resident p1 = resident p2 →
    is_primary p1 = true → is_primary p2 = true → k1 = k2.

(** Key and row under which a full [save] stores an instance. *)
Definition stored_key (self : Photo) (t : PhotoTable) : nat :=
  match pk self with
  | Some k => k
  | None => fresh (dom t)
  end.

Definition stored_row (now : Z) (self : Photo) (t : PhotoTable) : PhotoRow :=
  match pk self with
  | Some k =>
      match t !! k with
      | Some _ => row self
      | None => with_uploaded_at now (row self)
      end
  | None => with_uploaded_at now (row self)
  end.

(** The table after the row [p] is written under [k] and, when it is
    primary, its siblings are demoted. *)
Definition written (k : nat) (p : PhotoRow) (t : PhotoTable) : PhotoTable :=
  if is_primary p then demote_others (resident p) (Some k) (<[k := p]> t)
  else <[k := p]> t.

(** The write [w] is to a photo of resident [r]: the photo it stores,
    uploads, promotes or deletes belongs to [r], also before the write when
    it has a row already. *)
Definition photo_of (w : write) (r : nat) (t : PhotoTable) : Prop :=
  match w with
  | W_save _ self =>
      resident (row self) = r ∧
      ∀ k q, pk self = Some k → t !! k = Some q → resident q = r
  | W_update _ instance d =>
      resident (setattrs d (row instance)) = r ∧
      ∀ k q, pk instance = Some k → t !! k = Some q → resident q = r
  | W_upload _ _ _ rid _ => rid = r
  | W_set_primary _ k | W_destroy k =>
      ∃ p, t !! k = Some p ∧ resident p = r
  end.

(** [sub] occurs in [s]. *)
Definition substring_of (sub s : string) : Prop :=
  ∃ pre post, s = String.append pre (String.append sub post).

(** The free-text filter as the specification words it: [q] is a substring
    of one of the five fields, letter case aside. *)
Definition q_matches (q : string) (r : Resident) : Prop :=
  substring_of (lower q) (lower (first_name r)) ∨
  substring_of (lower q) (lower (last_name r)) ∨
  substring_of (lower q) (lower (apartment r)) ∨
  substring_of (lower q) (lower (phone r)) ∨
  substring_of (lower q) (lower (email r)).

(** The conjunction of the supplied filters, as the specification words
    it: free text, exact apartment, boolean [is_active]; a parameter that is
    absent restricts nothing. *)
Definition satisfies (params : QueryParams) (r : Resident) : Prop :=
  (∀ q, param_q params = Some q → q_matches q r) ∧
  (∀ a, param_apartment params = Some a → apartment r = a) ∧
  (∀ s, param_is_active params = Some s → is_active r = parse_is_active s).

(** The same, with an empty [apartment] parameter restricting nothing. *)
Definition selects (params : QueryParams) (r : Resident) : Prop :=
  (∀ q, param_q params = Some q → q_matches q r) ∧
  (∀ a, param_apartment params = Some a → a ≠ "" → apartment r = a) ∧
  (∀ s, param_is_active params = Some s → is_active r = parse_is_active s).

(** Ascending by last name, then by first name. *)
Definition name_le (a b : Resident) : Prop :=
  String.compare (last_name a) (last_name b) = Lt ∨
  (last_name a = last_name b ∧ String.compare (first_name a) (first_name b) ≠ Gt).

(** A 400 whose body is a mapping with the fields [fields] among its
    keys. *)
Definition field_keyed_400 (fields : list string) (resp : Response) : Prop :=
  status resp = HTTP_400_BAD_REQUEST ∧
  ∃ d, data resp = Dict d ∧ ∀ f, f ∈ fields → f ∈ d.*1.

(** The fields of an upload form that fail validation. *)
Definition offending (form : PhotoForm) (f : string) : Prop :=
  (f = "image" ∧ ∀ img, form_image form ≠ Wellformed img) ∨
  (f = "is_primary" ∧ form_is_primary form = Malformed).

(* ===================================================================== *)
(** ** The invariant and the table operations *)
(* ===================================================================== *)

Section table_facts.
Implicit Types (t : PhotoTable) (p : PhotoRow) (k : nat) (r : nat).

Lemma size_le_1_of_keys_equal (m : PhotoTable) :
  (∀ k1 k2, is_Some (m !! k1) → is_Some (m !! k2) → k1 = k2) → size m ≤ 1.
Proof.
  intros Heq. destruct (map_choose_or_empty m) as [(k & x & Hk) | ->].
  - assert (m = {[k := x]}) as ->.
    { apply map_eq. intros k'. destruct (decide (k' = k)) as [-> | Hne].
      - by rewrite lookup_singleton_eq.
      - rewrite lookup_singleton_ne by done.
        destruct (m !! k') eqn:Hk'; [|done].
        exfalso. apply Hne, Heq; eauto. }
    by rewrite map_size_singleton.
  - rewrite map_size_empty. lia.
Qed.

Lemma keys_equal_of_size_le_1 (m : PhotoTable) k1 k2 :
  size m ≤ 1 → is_Some (m !! k1) → is_Some (m !! k2) → k1 = k2.
Proof.
  intros Hsz H1 H2. destruct (decide (k1 = k2)) as [|Hne]; [done|].
  exfalso.
  assert (is_Some (delete k1 m !! k2)) as Hd by (by rewrite lookup_delete_ne).
  assert (size (delete k1 m) ≠ 0) as Hnz.
  { apply map_size_ne_0_lookup. destruct Hd as [x Hx]. eauto. }
  rewrite map_size_delete_Some in Hnz by done. lia.
Qed.

Lemma unique_primary_count t :
  unique_primary t ↔ ∀ r, primary_count r t ≤ 1.
Proof.
  unfold primary_count. split.
  - intros Hu r. apply size_le_1_of_keys_equal.
    intros k1 k2 [p1 H1] [p2 H2].
    apply map_lookup_filter_Some in H1 as (H1 & Hr1 & Hp1).
    apply map_lookup_filter_Some in H2 as (H2 & Hr2 & Hp2).
    simpl in *. eapply Hu; eauto. congruence.
  - intros Hc k1 k2 p1 p2 H1 H2 Hr Hp1 Hp2.
    eapply (keys_equal_of_size_le_1 _ _ _ (Hc (resident p1)));
      eexists; apply map_lookup_filter_Some; eauto.
Qed.

Lemma lookup_demote_others r ex t k :
  demote_others r ex t !! k = demoted r ex k <$> t !! k.
Proof.
  unfold demote_others. rewrite map_lookup_imap.
  by destruct (t !! k).
Qed.

Lemma resident_demoted r ex k p : resident (demoted r ex k p) = resident p.
Proof. unfold demoted. by destruct (_ && _). Qed.

Lemma is_primary_demoted_true r ex k p :
  is_primary (demoted r ex k p) = true →
  is_primary p = true ∧ (resident p = r → ex = Some k).
Proof.
  unfold demoted.
  destruct (_ && _) eqn:Hc; simpl; [done|].
  intros Hp. split; [done|]. intros Hr.
  rewrite Hp, (bool_decide_eq_true_2 _ Hr) in Hc. simpl in Hc.
  apply negb_false_iff, bool_decide_eq_true in Hc. done.
Qed.

Lemma demoted_other_resident r ex k p : resident p ≠ r → demoted r ex k p = p.
Proof.
  intros Hne. unfold demoted. by rewrite (bool_decide_eq_false_2 _ Hne).
Qed.

Lemma demoted_excluded r k p : demoted r (Some k) k p = p.
Proof.
  unfold demoted. rewrite (bool_decide_eq_true_2 (Some k = Some k)) by done.
  by rewrite andb_false_r.
Qed.

Lemma demoted_not_primary r ex k p : is_primary p = false → demoted r ex k p = p.
Proof. intros Hp. unfold demoted. by rewrite Hp, andb_false_r. Qed.

(** Demotion never creates a second primary. *)
Lemma unique_primary_demote r ex t :
  unique_primary t → unique_primary (demote_others r ex t).
Proof.
  intros Hu k1 k2 p1 p2. rewrite !lookup_demote_others.
  destruct (t !! k1) as [q1|] eqn:H1; [|done].
  destruct (t !! k2) as [q2|] eqn:H2; [|done].
  simpl. intros [= <-] [= <-]. rewrite !resident_demoted.
  intros Hr [Hp1 _]%is_primary_demoted_true [Hp2 _]%is_primary_demoted_true.
  eauto.
Qed.

(** Writing a primary row and demoting its siblings restores the
    invariant, whatever the written row replaced. *)
Lemma unique_primary_insert_demote k p t :
  unique_primary t →
  unique_primary (demote_others (resident p) (Some k) (<[k := p]> t)).
Proof.
  intros Hu k1 k2 p1 p2. rewrite !lookup_demote_others, !lookup_insert.
  intros H1 H2 Hr Hp1 Hp2.
  destruct (decide (k = k1)) as [<- | Hk1], (decide (k = k2)) as [<- | Hk2];
    simpl in *; [done | | |].
  - injection H1 as <-. rewrite demoted_excluded in Hr.
    destruct (t !! k2) as [q2|]; [|done]. injection H2 as <-.
    rewrite resident_demoted in Hr.
    apply is_primary_demoted_true in Hp2 as [_ Hex].
    specialize (Hex (eq_sym Hr)). congruence.
  - injection H2 as <-. rewrite demoted_excluded in Hr.
    destruct (t !! k1) as [q1|]; [|done]. injection H1 as <-.
    rewrite resident_demoted in Hr.
    apply is_primary_demoted_true in Hp1 as [_ Hex].
    specialize (Hex Hr). congruence.
  - destruct (t !! k1) as [q1|] eqn:E1; [|done].
    destruct (t !! k2) as [q2|] eqn:E2; [|done].
    injection H1 as <-. injection H2 as <-.
    rewrite !resident_demoted in Hr.
    apply is_primary_demoted_true in Hp1 as [Hp1 _].
    apply is_primary_demoted_true in Hp2 as [Hp2 _].
    eauto.
Qed.

Lemma unique_primary_insert_secondary k p t :
  unique_primary t → is_primary p = false → unique_primary (<[k := p]> t).
Proof.
  intros Hu Hp k1 k2 p1 p2. rewrite !lookup_insert.
  repeat case_decide; simplify_eq; try congruence. eauto.
Qed.

Lemma unique_primary_delete k t :
  unique_primary t → unique_primary (delete k t).
Proof.
  intros Hu k1 k2 p1 p2. rewrite !lookup_delete.
  repeat case_decide; try done. eauto.
Qed.
End table_facts.

(* ===================================================================== *)
(** ** What each write path leaves *)
(* ===================================================================== *)

Section write_paths.
Implicit Types (t : PhotoTable) (p : PhotoRow) (k : nat) (r : nat).

Lemma bind_run {A B} (m : DB A) (f : A → DB B) t :
  bind m f t =
    match result (m t) with
    | Ok a =>
        mkRun (result (f a (final (m t)))) (final (f a (final (m t))))
          (committed (m t) ++ committed (f a (final (m t))))
    | Raise e => mkRun (Raise e) (final (m t)) (committed (m t))
    end.
Proof. done. Qed.

Lemma resident_stored_row now self t :
  resident (stored_row now self t) = resident (row self).
Proof. unfold stored_row. by repeat case_match. Qed.

Lemma is_primary_stored_row now self t :
  is_primary (stored_row now self t) = is_primary (row self).
Proof. unfold stored_row. by repeat case_match. Qed.

Lemma stored_key_free self t q :
  t !! stored_key self t = Some q → pk self = Some (stored_key self t).
Proof.
  unfold stored_key. destruct (pk self); [done|].
  intros Hq. exfalso. apply (is_fresh (dom t)), elem_of_dom. eauto.
Qed.

Lemma Model_save_full now self t :
  Model_save now None self t =
    let k := stored_key self t in
    let p := stored_row now self t in
    mkRun (Ok (mkPhoto (Some k) p)) (<[k := p]> t) [<[k := p]> t].
Proof.
  destruct self as [[k|] p]; unfold Model_save, stored_key, stored_row; simpl.
  - unfold bind, query; simpl. by destruct (t !! k).
  - done.
Qed.

Lemma Photo_save_full now self t :
  Photo_save now None self t =
    let k := stored_key self t in
    let p := stored_row now self t in
    mkRun (Ok (mkPhoto (Some k) p)) (written k p t)
      (<[k := p]> t ::
         if is_primary p then [demote_others (resident p) (Some k) (<[k := p]> t)]
         else []).
Proof.
  unfold Photo_save, bind at 1. rewrite Model_save_full. simpl.
  unfold written. by destruct (is_primary (stored_row now self t)).
Qed.

Lemma demote_others_insert_excluded r k p t :
  demote_others r (Some k) (<[k := p]> t) = <[k := p]> (demote_others r (Some k) t).
Proof.
  apply map_eq. intros j.
  rewrite lookup_demote_others, !lookup_insert, lookup_demote_others.
  case_decide; [subst; simpl; by rewrite demoted_excluded | done].
Qed.

Lemma demote_others_idemp r ex t :
  demote_others r ex (demote_others r ex t) = demote_others r ex t.
Proof.
  apply map_eq. intros j. rewrite !lookup_demote_others.
  destruct (t !! j) as [q|]; [|done]. simpl. f_equal.
  assert (demoted r ex j q = q ∨ is_primary (demoted r ex j q) = false) as [Hq | Hq].
  { unfold demoted. destruct (_ && _); [by right | by left]. }
  - by rewrite !Hq.
  - by apply demoted_not_primary.
Qed.

(** A second demotion for the row just written changes nothing. *)
Lemma demote_others_written k p t :
  is_primary p = true →
  demote_others (resident p) (Some k) (written k p t) = written k p t.
Proof. intros Hp. unfold written. rewrite Hp. apply demote_others_idemp. Qed.

Lemma unique_primary_written k p t :
  unique_primary t → unique_primary (written k p t).
Proof.
  intros Hu. unfold written. destruct (is_primary p) eqn:Hp.
  - by apply unique_primary_insert_demote.
  - by apply unique_primary_insert_secondary.
Qed.

Lemma PhotoSerializer_update_run now instance d t :
  PhotoSerializer_update now instance d t =
    let self := mkPhoto (pk instance) (setattrs d (row instance)) in
    let k := stored_key self t in
    let p := stored_row now self t in
    mkRun (Ok (mkPhoto (Some k) p)) (written k p t) [written k p t].
Proof.
  unfold PhotoSerializer_update, ModelSerializer_update, atomic, bind.
  rewrite Photo_save_full. simpl.
  set (self := mkPhoto _ _). set (k := stored_key self t).
  set (p := stored_row now self t).
  destruct (is_primary p) eqn:Hp; simpl; [|done].
  by rewrite demote_others_written.
Qed.

Lemma get_object_found params table rid x :
  List.find (fun y => bool_decide (resident_pk y = rid)) (get_queryset params table) = Some x →
  resident_pk x = rid.
Proof. intros [_ H]%find_some. by apply bool_decide_eq_true in H. Qed.

(** The upload view either leaves the table alone or stores one new row
    of the resident named in the route. *)
Lemma upload_final now params table rid form t :
  final (ResidentViewSet_photos now "post" params table rid form t) = t ∨
  ∃ img b,
    let self := mkPhoto None (mkPhotoRow rid img b 0%Z) in
    final (ResidentViewSet_photos now "post" params table rid form t)
      = written (stored_key self t) (stored_row now self t) t.
Proof.
  unfold ResidentViewSet_photos, ResidentViewSet_get_object.
  destruct (List.find _ _) as [x|] eqn:Hx; [|by left].
  apply get_object_found in Hx. subst rid.
  unfold bind at 1. simpl.
  destruct (PhotoSerializer_is_valid _ form) as [d|] eqn:Hd; [|by left].
  right.
  assert (∃ img ob, d = mkPhotoAttrs (Some (resident_pk x)) (Some img) ob)
    as (img & ob & ->).
  { unfold PhotoSerializer_is_valid, PhotoSerializer_validate in Hd.
    repeat case_match; simplify_eq; eauto. }
  exists img, (default false ob). simpl.
  unfold PhotoSerializer_create, bind. rewrite Photo_save_full. simpl.
  set (self := mkPhoto _ _). set (k := stored_key self t).
  set (p := stored_row now self t).
  assert (is_primary p = default false ob) as Hp by done.
  assert (resident_pk x = resident p) as Hr by done.
  destruct (default false ob); simpl; [|done].
  rewrite Hr. by rewrite demote_others_written.
Qed.

Lemma PhotoViewSet_get_object_run k t :
  PhotoViewSet_get_object k t =
    match t !! k with
    | Some p => mkRun (Ok (mkPhoto (Some k) p)) t []
    | None => mkRun (Raise Http404) t []
    end.
Proof. unfold PhotoViewSet_get_object, bind, query. simpl. by destruct (t !! k). Qed.

Lemma with_is_primary_id p : is_primary p = true → with_is_primary true p = p.
Proof. destruct p; simpl. by intros ->. Qed.

Lemma set_primary_missing now k t :
  t !! k = None →
  PhotoViewSet_set_primary now k t = mkRun (Raise Http404) t [].
Proof.
  intros Hk. unfold PhotoViewSet_set_primary.
  by rewrite bind_run, PhotoViewSet_get_object_run, Hk.
Qed.

(** [set_primary] on a stored photo: the answer and the table it leaves. *)
Lemma set_primary_found now k p t :
  t !! k = Some p →
  result (PhotoViewSet_set_primary now k t)
    = Ok (mkResponse HTTP_200_OK (PhotoData (mkPhoto (Some k) (with_is_primary true p)))) ∧
  final (PhotoViewSet_set_primary now k t)
    = <[k := with_is_primary true p]> (demote_others (resident p) (Some k) t).
Proof.
  intros Hk. unfold PhotoViewSet_set_primary.
  rewrite bind_run, PhotoViewSet_get_object_run, Hk. simpl.
  assert (demote_others (resident p) (Some k) t !! k = Some p) as Hdk.
  { by rewrite lookup_demote_others, Hk; simpl; rewrite demoted_excluded. }
  destruct (is_primary p) eqn:Hp; simpl.
  - rewrite with_is_primary_id by done. split; [done|]. by rewrite insert_id.
  - rewrite bind_run. unfold Photo_save. rewrite bind_run.
    unfold Model_save. simpl. rewrite Hdk. simpl.
    assert (write_columns [col_is_primary] (with_is_primary true p) p
            = with_is_primary true p) as -> by done.
    split; [done|].
    rewrite demote_others_insert_excluded. by rewrite demote_others_idemp.
Qed.

Lemma destroy_final k t : final (PhotoViewSet_destroy k t) = delete k t.
Proof.
  unfold PhotoViewSet_destroy. rewrite bind_run, PhotoViewSet_get_object_run.
  destruct (t !! k) eqn:Hk; simpl; [done|]. by rewrite delete_id.
Qed.

(** Every write path preserves the invariant. *)
Lemma perform_unique_primary w t :
  unique_primary t → unique_primary (perform w t).
Proof.
  intros Hu. destruct w as [now self|now i d|now ps tb rid f|now k|k]; simpl.
  - rewrite Photo_save_full. simpl. by apply unique_primary_written.
  - rewrite PhotoSerializer_update_run. simpl. by apply unique_primary_written.
  - destruct (upload_final now ps tb rid f t) as [-> | (img & b & ->)]; [done|].
    by apply unique_primary_written.
  - destruct (t !! k) as [p|] eqn:Hk.
    + destruct (set_primary_found now k p t Hk) as [_ ->].
      rewrite <-demote_others_insert_excluded.
      by apply (unique_primary_insert_demote k (with_is_primary true p)).
    + by rewrite set_primary_missing.
  - rewrite destroy_final. by apply unique_primary_delete.
Qed.
End write_paths.

Section sorting.
Context {A : Type} (leb : A → A → bool).

Lemma insert_sorted_Permutation x l : insert_sorted leb x l ≡ₚ x :: l.
Proof.
  induction l as [|y l IH]; simpl; [done|].
  destruct (leb x y); [done|]. rewrite IH. apply Permutation_swap.
Qed.

Lemma sort_by_Permutation l : sort_by leb l ≡ₚ l.
Proof.
  induction l as [|x l IH]; simpl; [done|].
  by rewrite insert_sorted_Permutation, IH.
Qed.

Lemma elem_of_sort_by x l : x ∈ sort_by leb l ↔ x ∈ l.
Proof. by rewrite sort_by_Permutation. Qed.

Hypothesis leb_total : ∀ x y, leb x y = true ∨ leb y x = true.

Lemma insert_sorted_HdRel a x l :
  leb a x = true → HdRel (fun u v => leb u v = true) a l →
  HdRel (fun u v => leb u v = true) a (insert_sorted leb x l).
Proof.
  intros Hax Hl. destruct l as [|y l]; simpl; [by constructor|].
  destruct (leb x y); constructor; [done|]. by inversion Hl.
Qed.

Lemma insert_sorted_Sorted x l :
  Sorted (fun u v => leb u v = true) l →
  Sorted (fun u v => leb u v = true) (insert_sorted leb x l).
Proof.
  induction 1 as [|y l Hs IH Hhd]; simpl; [by repeat constructor|].
  destruct (leb x y) eqn:Hxy.
  - constructor; [by constructor | by constructor].
  - constructor; [done|]. apply insert_sorted_HdRel; [|done].
    destruct (leb_total x y); congruence.
Qed.

Lemma sort_by_Sorted l : Sorted (fun u v => leb u v = true) (sort_by leb l).
Proof.
  induction l as [|x l IH]; simpl; [constructor|].
  by apply insert_sorted_Sorted.
Qed.
End sorting.

Section photo_claims.
Implicit Types (t : PhotoTable) (p q : PhotoRow) (k j : nat) (r : nat).

Lemma written_other_resident k p t r2 j q :
  resident p ≠ r2 →
  (∀ o, t !! k = Some o → resident o ≠ r2) →
  resident q = r2 →
  written k p t !! j = Some q ↔ t !! j = Some q.
Proof.
  intros Hp Hold Hq.
  assert (∀ t', (demoted (resident p) (Some k) j <$> t' !! j = Some q ↔ t' !! j = Some q))
    as Hdem.
  { intros t'. destruct (t' !! j) as [o|]; simpl; [|done].
    destruct (decide (resident o = resident p)) as [Ho|Ho].
    - split; intros [= <-]; rewrite ?resident_demoted in Hq; congruence.
    - by rewrite demoted_other_resident. }
  assert (<[k := p]> t !! j = Some q ↔ t !! j = Some q) as Hins.
  { rewrite lookup_insert. case_decide; [subst j|done].
    split; [intros [= <-]; congruence | intros Ho; by apply Hold in Ho]. }
  unfold written. destruct (is_primary p); [|done].
  by rewrite lookup_demote_others, Hdem.
Qed.

Lemma elem_of_photos_of x r t :
  x ∈ photos_of r t ↔ ∃ k p, x = mkPhoto (Some k) p ∧ t !! k = Some p ∧ resident p = r.
Proof.
  unfold photos_of. rewrite elem_of_sort_by, list_elem_of_In, filter_In, in_map_iff.
  split.
  - intros [([k p] & <- & Hin) Hr]. simpl in *.
    apply bool_decide_eq_true in Hr.
    apply list_elem_of_In, elem_of_map_to_list in Hin. eauto.
  - intros (k & p & -> & Hk & Hr). split.
    + exists (k, p). split; [done|]. by apply list_elem_of_In, elem_of_map_to_list.
    + by apply bool_decide_eq_true.
Qed.

Lemma head_filter_None {B} (f : B → bool) (l : list B) :
  (∀ x, x ∈ l → f x = false) → head (List.filter f l) = None.
Proof.
  induction l as [|x l IH]; simpl; [done|]. intros Hall.
  rewrite (Hall x) by (by left). apply IH. intros y Hy. apply Hall. by right.
Qed.
End photo_claims.

(* ===================================================================== *)
(** ** Claims about the primary flag *)
(* ===================================================================== *)

(** C1.  Starting from a table in which every resident has at most one
    primary photo, after each write of any sequence of writes (a model
    [save], a serializer update, an upload through the nested route, a
    [set_primary], a delete) every resident has 0 or 1 primary photos. *)
Theorem C1_at_most_one_primary (ws : list write) (t : PhotoTable) :
  (∀ r, primary_count r t = 0 ∨ primary_count r t = 1) →
  Forall (fun t' => ∀ r, primary_count r t' = 0 ∨ primary_count r t' = 1)
    (history ws t).
Proof.
  intros H0.
  assert (unique_primary t) as Hu.
  { apply unique_primary_count. intros r. destruct (H0 r); lia. }
  clear H0. revert t Hu.
  induction ws as [|w ws IH]; intros t Hu; simpl; constructor.
  - apply perform_unique_primary with (w := w) in Hu.
    intros r. apply unique_primary_count with (r := r) in Hu. lia.
  - by apply IH, perform_unique_primary.
Qed.

Lemma C1_at_most_one_primary_witness :
  (∀ r, primary_count r ∅ = 0 ∨ primary_count r ∅ = 1) ∧
  Forall (fun t' => ∀ r, primary_count r t' = 0 ∨ primary_count r t' = 1)
    (history sample_writes ∅).
Proof.
  assert (∀ r, primary_count r ∅ = 0 ∨ primary_count r ∅ = 1) as H0
    by (intros r; left; reflexivity).
  split; [exact H0 | exact (C1_at_most_one_primary sample_writes ∅ H0)].
Defined.

(** C3.  [set_primary] on a stored photo, called twice in a row: the second
    call answers 200 like the first and leaves the table the first call
    left, in which that photo is primary and no other photo of the same
    resident is. *)
Theorem C3_set_primary_idempotent (now1 now2 : Z) (k : nat) (p : PhotoRow)
    (t : PhotoTable) :
  t !! k = Some p →
  let once := PhotoViewSet_set_primary now1 k t in
  let twice := PhotoViewSet_set_primary now2 k (final once) in
  final twice = final once ∧
  result twice = result once ∧
  (∃ resp, result twice = Ok resp ∧ status resp = HTTP_200_OK) ∧
  final twice !! k = Some (with_is_primary true p) ∧
  (∀ j q, j ≠ k → final twice !! j = Some q → resident q = resident p →
          is_primary q = false).
Proof.
  intros Hk once twice.
  destruct (set_primary_found now1 k p t Hk) as [Hr1 Hf1].
  assert (final once !! k = Some (with_is_primary true p)) as Hk1.
  { subst once. by rewrite Hf1, lookup_insert_eq. }
  destruct (set_primary_found now2 k _ _ Hk1) as [Hr2 Hf2].
  fold once in Hr1, Hf1. fold twice in Hr2, Hf2.
  assert (final twice = final once) as Heq.
  { rewrite Hf2, Hf1. simpl.
    rewrite demote_others_insert_excluded, demote_others_idemp.
    by rewrite !insert_insert_eq. }
  split; [done|]. split; [by rewrite Hr2, Hr1|].
  split; [by eauto|]. split; [by rewrite Heq|].
  intros j q Hj. rewrite Heq, Hf1, lookup_insert_ne by done.
  rewrite lookup_demote_others.
  destruct (t !! j) as [o|]; simpl; [|done]. intros [= <-] Hres.
  rewrite resident_demoted in Hres.
  destruct (is_primary (demoted (resident p) (Some k) j o)) eqn:Hp; [|done].
  apply is_primary_demoted_true in Hp as [_ Hex].
  specialize (Hex Hres). congruence.
Qed.

Lemma C3_set_primary_idempotent_witness :
  sample_photos !! 2 = Some photo_b ∧
  let once := PhotoViewSet_set_primary 30%Z 2 sample_photos in
  let twice := PhotoViewSet_set_primary 40%Z 2 (final once) in
  final twice = final once ∧
  result twice = result once ∧
  (∃ resp, result twice = Ok resp ∧ status resp = HTTP_200_OK) ∧
  final twice !! 2 = Some (with_is_primary true photo_b) ∧
  (∀ j q, j ≠ 2 → final twice !! j = Some q → resident q = resident photo_b →
          is_primary q = false).
Proof.
  assert (sample_photos !! 2 = Some photo_b) as H by reflexivity.
  split; [exact H|].
  exact (C3_set_primary_idempotent 30%Z 40%Z 2 photo_b sample_photos H).
Defined.

(** C4.  A write to a photo of resident [r1], through any write path, leaves
    the photos of every other resident [r2] as they were: the same rows
    under the same keys, with the same primary flags. *)
Theorem C4_other_residents_untouched (w : write) (r1 r2 : nat) (t : PhotoTable) :
  r1 ≠ r2 →
  photo_of w r1 t →
  ∀ j q, resident q = r2 → (perform w t !! j = Some q ↔ t !! j = Some q).
Proof.
  intros Hne Hw j q Hq.
  destruct w as [now self|now i d|now ps tb rid f|now k|k]; simpl in *.
  - destruct Hw as [Hr Hold]. rewrite Photo_save_full. simpl.
    apply written_other_resident with (r2 := r2); [by rewrite resident_stored_row; congruence| |done].
    intros o Ho. pose proof (stored_key_free _ _ _ Ho) as Hpk.
    rewrite (Hold _ _ Hpk Ho). done.
  - destruct Hw as [Hr Hold]. rewrite PhotoSerializer_update_run. simpl.
    apply written_other_resident with (r2 := r2); [by rewrite resident_stored_row; simpl; congruence| |done].
    intros o Ho. pose proof (stored_key_free _ _ _ Ho) as Hpk. simpl in Hpk.
    rewrite (Hold _ _ Hpk Ho). done.
  - subst rid. destruct (upload_final now ps tb r1 f t) as [-> | (img & b & ->)]; [done|].
    apply written_other_resident with (r2 := r2); [by rewrite resident_stored_row; simpl; congruence| |done].
    intros o Ho. by apply stored_key_free in Ho.
  - destruct Hw as (p & Hk & Hr).
    destruct (set_primary_found now k p t Hk) as [_ ->].
    rewrite <-demote_others_insert_excluded.
    change (written k (with_is_primary true p) t !! j = Some q ↔ t !! j = Some q).
    apply written_other_resident with (r2 := r2); [simpl; congruence| |done].
    intros o Ho. congruence.
  - destruct Hw as (p & Hk & Hr). rewrite destroy_final, lookup_delete.
    case_decide; [subst j|done]. split; [done|]. congruence.
Qed.

Lemma C4_other_residents_untouched_witness :
  7 ≠ 8 ∧
  photo_of (W_set_primary 40%Z 2) 7 sample_photos ∧
  resident photo_c = 8 ∧
  (perform (W_set_primary 40%Z 2) sample_photos !! 3 = Some photo_c ↔
   sample_photos !! 3 = Some photo_c).
Proof.
  assert (7 ≠ 8) as Hne by lia.
  assert (photo_of (W_set_primary 40%Z 2) 7 sample_photos) as Hw
    by (exists photo_b; split; reflexivity).
  assert (resident photo_c = 8) as Hq by reflexivity.
  split; [exact Hne|]. split; [exact Hw|]. split; [exact Hq|].
  exact (C4_other_residents_untouched (W_set_primary 40%Z 2) 7 8 sample_photos
           Hne Hw 3 photo_c Hq).
Defined.

(** C10.  When a resident has no more than one primary photo, deleting
    that photo answers 204, removes that row only, leaves every other row
    (and so every other primary flag) as it was, and the resident's
    [primary_photo] is [None] afterwards. *)
Theorem C10_delete_primary_promotes_nothing (k : nat) (p : PhotoRow) (t : PhotoTable) :
  primary_count (resident p) t ≤ 1 →
  t !! k = Some p →
  is_primary p = true →
  let after := PhotoViewSet_destroy k t in
  result after = Ok (mkResponse HTTP_204_NO_CONTENT NoContent) ∧
  final after !! k = None ∧
  (∀ j, j ≠ k → final after !! j = t !! j) ∧
  primary_photo (resident p) (final after) = None.
Proof.
  intros H0 Hk Hp after.
  split.
  { subst after. unfold PhotoViewSet_destroy.
    by rewrite bind_run, PhotoViewSet_get_object_run, Hk. }
  subst after. rewrite destroy_final.
  split; [by rewrite lookup_delete_eq|].
  split; [by intros j Hj; rewrite lookup_delete_ne|].
  unfold primary_photo. apply head_filter_None.
  intros x (j & q & -> & Hj & Hr)%elem_of_photos_of. simpl.
  rewrite lookup_delete in Hj. case_decide as Hne; [done|].
  destruct (is_primary q) eqn:Hq; [|done].
  exfalso. apply Hne.
  eapply (keys_equal_of_size_le_1 _ _ _ H0);
    eexists; apply map_lookup_filter_Some; eauto.
Qed.

Lemma C10_delete_primary_promotes_nothing_witness :
  primary_count (resident photo_a) sample_photos ≤ 1 ∧
  sample_photos !! 1 = Some photo_a ∧
  is_primary photo_a = true ∧
  let after := PhotoViewSet_destroy 1 sample_photos in
  result after = Ok (mkResponse HTTP_204_NO_CONTENT NoContent) ∧
  final after !! 1 = None ∧
  (∀ j, j ≠ 1 → final after !! j = sample_photos !! j) ∧
  primary_photo (resident photo_a) (final after) = None.
Proof.
  assert (primary_count (resident photo_a) sample_photos ≤ 1) as H0
    by (vm_compute; lia).
  assert (sample_photos !! 1 = Some photo_a) as Hk by reflexivity.
  assert (is_primary photo_a = true) as Hp by reflexivity.
  split; [exact H0|]. split; [exact Hk|]. split; [exact Hp|].
  exact (C10_delete_primary_promotes_nothing 1 photo_a sample_photos H0 Hk Hp).
Defined.

(** The serializer's update commits once: no state between its statements
    is visible. *)
Lemma PhotoSerializer_update_commits_once now instance d (t : PhotoTable) :
  committed (PhotoSerializer_update now instance d t)
    = [final (PhotoSerializer_update now instance d t)].
Proof. by rewrite PhotoSerializer_update_run. Qed.

(** C2.  [Photo.save] and [set_primary] run their statements outside any
    transaction, so each statement is committed on its own.  With photo 1
    (primary) and photo 2 of resident 7 stored: saving a new primary photo
    of resident 7 first shows two primaries; [set_primary] on photo 2 first shows none,
    the demotion without the new flag; the serializer's update of photo 2,
    which is inside [transaction.atomic], shows the end state only. *)
Theorem C2_save_and_set_primary_commit_in_steps :
  primary_count 7 <$>
    committed (Photo_save 40%Z None (mkPhoto None (mkPhotoRow 7 "d.png" true 0%Z))
                 sample_photos)
    = [2; 1] ∧
  primary_count 7 <$> committed (PhotoViewSet_set_primary 40%Z 2 sample_photos)
    = [0; 1; 1] ∧
  primary_count 7 <$>
    committed (PhotoSerializer_update 40%Z (mkPhoto (Some 2) photo_b)
                 (mkPhotoAttrs None None (Some true)) sample_photos)
    = [1].
Proof. vm_compute. done. Qed.

(* ===================================================================== *)
(** ** Access control *)
(* ===================================================================== *)

Section access_control.
Variable auths : list Authenticator.

Lemma permission_denied_status request :
  status (permission_denied request) = HTTP_401_UNAUTHORIZED ∨
  status (permission_denied request) = HTTP_403_FORBIDDEN.
Proof.
  unfold permission_denied.
  destruct (authenticators request) as [|a l], (successful_authenticator request);
    try (by right).
  destruct (truthy _); [by left | by right].
Qed.

Lemma permission_denied_authenticated a staff :
  status (permission_denied (authenticated_request auths a staff)) = HTTP_403_FORBIDDEN.
Proof. unfold permission_denied. simpl. by destruct auths. Qed.

Lemma permission_denied_body request :
  ∃ msg, data (permission_denied request) = Dict [("detail", Str msg)].
Proof.
  unfold permission_denied.
  destruct (authenticators request) as [|a l], (successful_authenticator request);
    try destruct (truthy _); simpl; eauto.
Qed.
End access_control.

(** C5.  Whatever authentication classes are configured: an anonymous
    request to list residents gets the framework's denial, a 401 or 403
    whose body is an error detail and not a page of residents; a staff
    user's delete of a resident reaches the delete handler; an authenticated
    user who is not staff gets 403 on a delete of a resident and on the
    admin summary. *)
Theorem C5_access_control (auths : list Authenticator) (a : Authenticator) :
  (∀ params size page table,
     let resp := ResidentViewSet_list (anonymous_request auths) params size page table in
     (status resp = HTTP_401_UNAUTHORIZED ∨ status resp = HTTP_403_FORBIDDEN) ∧
     (∃ msg, data resp = Dict [("detail", Str msg)])) ∧
  (has_permission (authenticated_request auths a true) "destroy" = true ∧
   ∀ handler, ResidentViewSet_destroy (authenticated_request auths a true) handler = handler) ∧
  (∀ handler,
     let resp := ResidentViewSet_destroy (authenticated_request auths a false) handler in
     resp = permission_denied (authenticated_request auths a false) ∧
     status resp = HTTP_403_FORBIDDEN) ∧
  (∀ table (t : PhotoTable),
     let resp := AdminSummaryView_get (authenticated_request auths a false) table t in
     resp = permission_denied (authenticated_request auths a false) ∧
     status resp = HTTP_403_FORBIDDEN).
Proof.
  repeat split.
  - apply permission_denied_status.
  - apply permission_denied_body.
  - apply permission_denied_authenticated.
  - apply permission_denied_authenticated.
Qed.

(* ===================================================================== *)
(** ** The resident listing against its description *)
(* ===================================================================== *)

Section strings.
Implicit Types (s sub p : string).

Lemma append_String c p post :
  String.append (String c p) post = String c (String.append p post).
Proof. done. Qed.

Lemma append_Empty s : String.append "" s = s.
Proof. done. Qed.

Lemma prefix_spec p s :
  String.prefix p s = true ↔ ∃ post, s = String.append p post.
Proof.
  revert p. induction s as [|c' s IH]; intros [|c p]; simpl.
  - split; [intros _; by exists "" | done].
  - split; [done | by intros [? ?]].
  - split; [intros _; by exists (String c' s) | done].
  - destruct (Ascii.ascii_dec c c') as [<- | Hne].
    + rewrite IH. split; intros [post H]; exists post;
        rewrite append_String in *; congruence.
    + split; [done | intros [post H]; rewrite append_String in H; congruence].
Qed.

Lemma contains_unfold s sub :
  contains s sub =
    String.prefix sub s ||
    match s with
    | EmptyString => false
    | String _ s' => contains s' sub
    end.
Proof. by destruct s. Qed.

Lemma contains_spec s sub : contains s sub = true ↔ substring_of sub s.
Proof.
  unfold substring_of. split.
  - induction s as [|c s IH]; rewrite contains_unfold, orb_true_iff, prefix_spec.
    + intros [[post H] | ?]; [by exists "", post | done].
    + intros [[post H] | H]; [by exists "", post |].
      destruct (IH H) as (pre & post & ->). by exists (String c pre), post.
  - intros (pre & post & ->). induction pre as [|c pre IH].
    + rewrite append_Empty, contains_unfold.
      apply orb_true_iff. left. apply prefix_spec. eauto.
    + rewrite append_String, contains_unfold. by rewrite IH, orb_true_r.
Qed.

Lemma icontains_spec field q :
  icontains field q = true ↔ substring_of (lower q) (lower field).
Proof. apply contains_spec. Qed.

Lemma substring_of_empty s : substring_of "" s.
Proof. by exists "", s. Qed.

Lemma compare_refl s : String.compare s s = Eq.
Proof.
  pose proof (String.compare_antisym s s) as H.
  by destruct (String.compare s s).
Qed.

Lemma compare_Lt_trans s1 s2 s3 :
  String.compare s1 s2 = Lt → String.compare s2 s3 = Lt → String.compare s1 s3 = Lt.
Proof.
  revert s2 s3. induction s1 as [|c1 s1 IH]; intros [|c2 s2] [|c3 s3]; simpl; try done.
  unfold Ascii.compare.
  destruct (N.compare_spec (N_of_ascii c1) (N_of_ascii c2)),
           (N.compare_spec (N_of_ascii c2) (N_of_ascii c3)),
           (N.compare_spec (N_of_ascii c1) (N_of_ascii c3));
    try done; try lia; eauto.
Qed.
End strings.

Section listing.
Implicit Types (params : QueryParams) (table : list Resident) (r : Resident).

Lemma Q_any_field_spec q r : Q_any_field q r = true ↔ q_matches q r.
Proof.
  unfold Q_any_field, q_matches. rewrite !orb_true_iff, !icontains_spec. tauto.
Qed.

Lemma q_matches_empty r : q_matches "" r.
Proof. left. apply substring_of_empty. Qed.

Lemma elem_of_List_filter {B} (f : B → bool) (l : list B) x :
  x ∈ List.filter f l ↔ x ∈ l ∧ f x = true.
Proof. by rewrite !list_elem_of_In, filter_In. Qed.


Lemma sublist_List_filter {B} (f : B → bool) (l : list B) :
  List.filter f l `sublist_of` l.
Proof.
  induction l as [|x l IH]; simpl; [done|].
  destruct (f x); [by apply sublist_skip | by apply sublist_cons].
Qed.

Lemma name_leb_spec a b : name_leb a b = true ↔ name_le a b.
Proof.
  unfold name_leb, name_le, String.leb.
  destruct (String.compare (last_name a) (last_name b)) eqn:El.
  - apply String.compare_eq_iff in El. split.
    + intros H. right. split; [done|].
      by destruct (String.compare (first_name a) (first_name b)).
    + intros [? | [_ H]]; [done|].
      by destruct (String.compare (first_name a) (first_name b)).
  - split; [by left | done].
  - split; [done|]. intros [? | [Heq _]]; [done|].
    rewrite Heq, compare_refl in El. done.
Qed.

Lemma name_leb_total a b : name_leb a b = true ∨ name_leb b a = true.
Proof.
  unfold name_leb.
  rewrite (String.compare_antisym (last_name b) (last_name a)).
  destruct (String.compare (last_name a) (last_name b)); simpl; auto.
  apply String.leb_total.
Qed.

Global Instance name_le_trans : Transitive name_le.
Proof.
  intros a b c [Hab | [Hab Hfab]] [Hbc | [Hbc Hfbc]]; unfold name_le.
  - left. eauto using compare_Lt_trans.
  - left. congruence.
  - left. congruence.
  - right. split; [congruence|].
    destruct (String.compare (first_name a) (first_name b)) eqn:E1; [| |done].
    + apply String.compare_eq_iff in E1. congruence.
    + destruct (String.compare (first_name b) (first_name c)) eqn:E2; [| |done].
      * apply String.compare_eq_iff in E2. congruence.
      * by rewrite (compare_Lt_trans _ _ _ E1 E2).
Qed.

Lemma order_by_name_sorted l : StronglySorted name_le (order_by_name l).
Proof.
  apply Sorted_StronglySorted; [apply name_le_trans|].
  pose proof (sort_by_Sorted name_leb name_leb_total l) as Hs.
  unfold order_by_name.
  induction Hs as [|x l' Hs IH Hhd]; constructor; [done|].
  destruct Hhd; constructor. by apply name_leb_spec.
Qed.

Lemma truthy_guard (o : option string) (P : string → Prop) :
  (∀ q, o = Some q → q ≠ "" → P q) ↔ (truthy o = true → P (default "" o)).
Proof.
  destruct o as [[|c s]|]; simpl; split; try done.
  - by intros H q [= <-].
  - intros H _. by apply H.
  - intros H q [= <-] _. by apply H.
Qed.

Lemma supplied_guard (o : option string) (P : string → Prop) :
  (∀ s, o = Some s → P s) ↔ from_option P True o.
Proof.
  destruct o as [s|]; simpl; split; try done.
  - intros H. by apply H.
  - intros H s' [= ->]. done.
Qed.

(** The rows [get_queryset] keeps, by the tests the code makes. *)
Lemma elem_of_get_queryset params table r :
  r ∈ get_queryset params table ↔
  r ∈ table ∧
  (∀ q, param_q params = Some q → q ≠ "" → Q_any_field q r = true) ∧
  (∀ a, param_apartment params = Some a → a ≠ "" → apartment r = a) ∧
  (∀ s, param_is_active params = Some s → is_active r = parse_is_active s).
Proof.
  unfold get_queryset, order_by_name.
  rewrite elem_of_sort_by, !truthy_guard, supplied_guard.
  destruct (param_is_active params) as [s|];
    destruct (truthy (param_q params)), (truthy (param_apartment params));
    simpl; rewrite ?elem_of_List_filter, ?bool_decide_eq_true;
    intuition (auto; discriminate).
Qed.

Lemma get_queryset_sublist params table :
  ∃ l, l `sublist_of` table ∧ get_queryset params table ≡ₚ l.
Proof.
  unfold get_queryset, order_by_name. eexists. split; [|apply sort_by_Permutation].
  destruct (param_is_active params);
    destruct (truthy (param_q params)), (truthy (param_apartment params));
    repeat (etrans; [apply sublist_List_filter|]); done.
Qed.
End listing.

(** The listing on the specification's sample: [q=lee] and [apartment=4B]
    each list Ann Lee and Bob Lee, [q=lee&apartment=2A] lists nobody, and
    whatever the table order the Lees come before Smith, Ann before Bob. *)
Example get_queryset_sample :
  get_queryset (mkQueryParams (Some "lee") None None) [cat; bob; ann] = [ann; bob] ∧
  get_queryset (mkQueryParams None (Some "4B") None) [cat; bob; ann] = [ann; bob] ∧
  get_queryset (mkQueryParams (Some "lee") (Some "2A") None) [cat; bob; ann] = [] ∧
  get_queryset (mkQueryParams None None None) [cat; bob; ann] = [ann; bob; cat] ∧
  get_queryset (mkQueryParams None None (Some "")) [cat; bob; ann] = [cat].
Proof. vm_compute. done. Qed.

(** C6, as stated, fails on an empty [apartment] parameter: the code then
    keeps every resident, the exact-match filter none of those with an
    apartment. *)
Lemma C6_empty_apartment_counterexample :
  ¬ (∀ r, r ∈ get_queryset (mkQueryParams None (Some "") None) [ann] ↔
          r ∈ [ann] ∧ satisfies (mkQueryParams None (Some "") None) r).
Proof.
  intros H.
  assert (ann ∈ get_queryset (mkQueryParams None (Some "") None) [ann]) as Hin
    by (vm_compute; left).
  apply H in Hin as [_ (_ & Ha & _)].
  specialize (Ha "" eq_refl). discriminate Ha.
Qed.

(** C6, amended.  For every table and every combination of parameters, the
    listing holds exactly the residents that pass the supplied filters (free
    text in any of the five fields, case-insensitively; exact apartment;
    [is_active]), where an absent parameter, and an [apartment] parameter
    that is the empty string, restricts nothing; each row is listed as often
    as it is stored, and the listing ascends by last name, then first
    name. *)
Theorem C6_resident_list (params : QueryParams) (table : list Resident) :
  (∀ r, r ∈ get_queryset params table ↔ r ∈ table ∧ selects params r) ∧
  (∃ l, l `sublist_of` table ∧ get_queryset params table ≡ₚ l) ∧
  StronglySorted name_le (get_queryset params table).
Proof.
  split; [|split].
  - intros r. rewrite elem_of_get_queryset. unfold selects.
    split; intros (Hin & Hq & Ha & Hs); (split; [done|]); (split; [|done]).
    + intros q Hpq. destruct (decide (q = "")) as [-> | Hne].
      * apply q_matches_empty.
      * by apply Q_any_field_spec, Hq.
    + intros q Hpq _. by apply Q_any_field_spec, Hq.
  - apply get_queryset_sublist.
  - apply order_by_name_sorted.
Qed.


(* ===================================================================== *)
(** ** Registration and validation errors *)
(* ===================================================================== *)

Section registration.
Implicit Types (data : RegisterData) (users : list User).

Lemma existsb_username users name :
  existsb (fun u => bool_decide (username u = name)) users = true ↔
  ∃ u, u ∈ users ∧ username u = name.
Proof.
  rewrite existsb_exists. split; intros (u & Hin & Hu); exists u.
  - by apply list_elem_of_In in Hin; apply bool_decide_eq_true in Hu.
  - split; [by apply list_elem_of_In | by apply bool_decide_eq_true].
Qed.

Lemma truthy_Some s : truthy (Some s) = true ↔ s ≠ "".
Proof. by destruct s. Qed.

(** The three ways [register] returns. *)
Lemma register_cases data users :
  let name := default "" (data_username data) in
  let taken := existsb (fun u => bool_decide (username u = name)) users in
  register data users =
    if negb (truthy (data_username data)) || negb (truthy (data_password data)) then
      (mkResponse HTTP_400_BAD_REQUEST
         (Dict [("detail", Str "username and password are required")]), users)
    else if taken then
      (mkResponse HTTP_400_BAD_REQUEST
         (Dict [("detail", Str "Username already exists")]), users)
    else
      (mkResponse HTTP_201_CREATED
         (Dict [("success", Bool true); ("username", Str name)]),
       users ++ [mkUser name (normalize_email (default "" (data_email data)))
                   (default "" (data_password data))]).
Proof. done. Qed.
End registration.

Section upload_validation.
Implicit Types (form : PhotoForm).

Lemma image_offending form :
  (∀ img, form_image form ≠ Wellformed img) ↔
  form_image form = Missing ∨ form_image form = Malformed.
Proof.
  destruct (form_image form) as [|img|]; split; try (intros _; auto; done).
  - intros H. by destruct (H img).
  - by intros [? | ?].
Qed.

Lemma is_valid_None rid form :
  (∃ f, offending form f) → PhotoSerializer_is_valid rid form = None.
Proof.
  intros [f [[_ Hi%image_offending] | [_ Hp]]]; unfold PhotoSerializer_is_valid.
  - by destruct Hi as [-> | ->].
  - rewrite Hp. by destruct (form_image form).
Qed.

Lemma errors_keys form f :
  f ∈ (PhotoSerializer_errors form).*1 ↔ offending form f.
Proof.
  unfold offending, PhotoSerializer_errors. rewrite image_offending.
  destruct (form_image form), (form_is_primary form); simpl;
    rewrite ?elem_of_cons, ?elem_of_nil; intuition congruence.
Qed.
End upload_validation.



(** C8, as stated, fails for registration: a request without a user name,
    and one with a name that is taken, get a 400 whose body has the single
    key [detail], not the key [username]. *)
Lemma C8_register_errors_counterexample :
  ¬ field_keyed_400 ["username"]
      (register (mkRegisterData None (Some "secret") None) []).1 ∧
  ¬ field_keyed_400 ["username"]
      (register (mkRegisterData (Some "ann") (Some "secret") None) sample_users).1.
Proof.
  split; intros [_ (d & [= <-] & Hkeys)];
    specialize (Hkeys "username" ltac:(left));
    simpl in Hkeys; apply list_elem_of_singleton in Hkeys; discriminate.
Qed.

(** C8, amended.  A registration without a user name or a password (absent
    or empty), or with a user name that is taken, and no other, is answered
    400; the body is then a mapping with the single key [detail] and a
    message, and no account is created.  A photo upload for a stored
    resident whose form has an offending field (the image absent or not a
    file, the flag not a boolean) is answered 400 with a mapping whose keys
    are exactly the offending fields, and no photo is stored. *)
Theorem C8_validation_errors :
  (∀ form users,
     let resp := (register form users).1 in
     (status resp = HTTP_400_BAD_REQUEST ↔
        truthy (data_username form) = false ∨
        truthy (data_password form) = false ∨
        ∃ u, u ∈ users ∧ Some (username u) = data_username form) ∧
     (status resp = HTTP_400_BAD_REQUEST →
        (∃ msg, data resp = Dict [("detail", Str msg)]) ∧
        (register form users).2 = users)) ∧
  (∀ now params table rid form (t : PhotoTable),
     is_Some (List.find (fun r => bool_decide (resident_pk r = rid))
                (get_queryset params table)) →
     (∃ f, offending form f) →
     let after := ResidentViewSet_photos now "post" params table rid form t in
     ∃ d, result after = Ok (mkResponse HTTP_400_BAD_REQUEST (Dict d)) ∧
          (∀ f, f ∈ d.*1 ↔ offending form f) ∧
          final after = t).
Proof.
  split.
  - intros form users resp. subst resp. rewrite register_cases.
    destruct (truthy (data_username form)) eqn:Hn;
      destruct (truthy (data_password form)) eqn:Hp; simpl;
      try (split; [split; [auto | done] | eauto]).
    destruct (existsb _ users) eqn:Hex; simpl.
    + split; [split; [|done] | eauto].
      intros _. right. right.
      apply existsb_username in Hex as (u & Hin & Hu). exists u. split; [done|].
      rewrite Hu. by destruct (data_username form).
    + split; [|intros [=]]. split; [intros [=]|].
      intros [? | [? | (u & Hin & Hu)]]; [done | done |].
      apply not_true_iff_false in Hex. destruct Hex.
      apply existsb_username. exists u. split; [done|]. by rewrite <-Hu.
  - intros now params table rid form t [x Hx] Hbad after. subst after.
    unfold ResidentViewSet_photos, ResidentViewSet_get_object.
    rewrite Hx, bind_run. simpl.
    rewrite (is_valid_None _ _ Hbad).
    eexists. split; [done|]. split; [apply errors_keys | done].
Qed.

Lemma C8_validation_errors_witness :
  (status (register (mkRegisterData None (Some "secret") None) []).1
     = HTTP_400_BAD_REQUEST ∧
   ∃ msg, data (register (mkRegisterData None (Some "secret") None) []).1
          = Dict [("detail", Str msg)]) ∧
  (is_Some (List.find (fun r => bool_decide (resident_pk r = 7))
              (get_queryset (mkQueryParams None None None) [ann])) ∧
   (∃ f, offending (mkPhotoForm Missing Malformed) f) ∧
   ∃ d, result (ResidentViewSet_photos 10%Z "post" (mkQueryParams None None None)
                  [ann] 7 (mkPhotoForm Missing Malformed) ∅)
        = Ok (mkResponse HTTP_400_BAD_REQUEST (Dict d))).
Proof.
  assert (status (register (mkRegisterData None (Some "secret") None) []).1
          = HTTP_400_BAD_REQUEST) as H400 by reflexivity.
  assert (is_Some (List.find (fun r => bool_decide (resident_pk r = 7))
                     (get_queryset (mkQueryParams None None None) [ann]))) as Hfound
    by (eexists; reflexivity).
  assert (∃ f, offending (mkPhotoForm Missing Malformed) f) as Hbad
    by (exists "is_primary"; right; split; reflexivity).
  split.
  - split; [exact H400|].
    exact (proj1 (proj2 (proj1 C8_validation_errors
                           (mkRegisterData None (Some "secret") None) []) H400)).
  - split; [exact Hfound|]. split; [exact Hbad|].
    destruct (proj2 C8_validation_errors 10%Z (mkQueryParams None None None) [ann] 7
                (mkPhotoForm Missing Malformed) ∅ Hfound Hbad) as (d & Hd & _).
    exists d. exact Hd.
Defined.

(* ===================================================================== *)
(** ** Further properties of the photo write paths *)
(* ===================================================================== *)

Section photo_counts.
Implicit Types (t : PhotoTable) (p q : PhotoRow) (k j : nat) (r : nat).

Lemma primary_count_0 r t :
  (∀ j q, t !! j = Some q → resident q = r → is_primary q = false) →
  primary_count r t = 0.
Proof.
  intros H. unfold primary_count. apply map_size_empty_iff, map_empty. intros j.
  apply map_lookup_filter_None. right. intros q Hq [Hr Hp]. simpl in *.
  rewrite (H j q Hq Hr) in Hp. done.
Qed.

Lemma primary_count_0_inv r t j q :
  primary_count r t = 0 → t !! j = Some q → resident q = r → is_primary q = false.
Proof.
  unfold primary_count. intros H0%map_size_empty_iff Hq Hr.
  destruct (is_primary q) eqn:Hp; [|done].
  assert (filter (λ kp, resident kp.2 = r ∧ is_primary kp.2 = true) t !! j = Some q) as Hin
    by (by apply map_lookup_filter_Some).
  rewrite H0, lookup_empty in Hin. done.
Qed.

Lemma primary_count_1 r t k p :
  t !! k = Some p → resident p = r → is_primary p = true →
  (∀ j q, t !! j = Some q → resident q = r → is_primary q = true → j = k) →
  primary_count r t = 1.
Proof.
  intros Hk Hr Hp Honly. unfold primary_count.
  assert (filter (λ kp, resident kp.2 = r ∧ is_primary kp.2 = true) t = {[k := p]}) as ->.
  { apply map_eq. intros j. destruct (decide (j = k)) as [-> | Hne].
    - rewrite lookup_singleton_eq. by apply map_lookup_filter_Some.
    - rewrite lookup_singleton_ne by done.
      apply map_lookup_filter_None. right. intros q Hq [Hrq Hpq]. simpl in *.
      by apply Hne, (Honly j q). }
  apply map_size_singleton.
Qed.

Lemma primary_count_ge_2 r t k j p q :
  k ≠ j →
  t !! k = Some p → resident p = r → is_primary p = true →
  t !! j = Some q → resident q = r → is_primary q = true →
  2 ≤ primary_count r t.
Proof.
  intros Hne Hk Hrp Hpp Hj Hrq Hpq.
  destruct (decide (primary_count r t ≤ 1)) as [Hle|]; [|lia].
  exfalso. apply Hne.
  eapply (keys_equal_of_size_le_1 _ _ _ Hle);
    eexists; apply map_lookup_filter_Some; eauto.
Qed.

Lemma lookup_written_eq k p t : written k p t !! k = Some p.
Proof.
  unfold written. destruct (is_primary p).
  - by rewrite lookup_demote_others, lookup_insert_eq; simpl; rewrite demoted_excluded.
  - by rewrite lookup_insert_eq.
Qed.

Lemma lookup_written_ne k p t j :
  j ≠ k →
  written k p t !! j =
    (if is_primary p then demoted (resident p) (Some k) j else id) <$> t !! j.
Proof.
  intros Hne. unfold written. destruct (is_primary p).
  - by rewrite lookup_demote_others, lookup_insert_ne.
  - rewrite lookup_insert_ne by done. by destruct (t !! j).
Qed.


Lemma written_primary_count k p t :
  is_primary p = true → primary_count (resident p) (written k p t) = 1.
Proof.
  intros Hp. apply (primary_count_1 _ _ k p); [apply lookup_written_eq | done | done |].
  intros j q Hj Hr Hq. destruct (decide (j = k)) as [|Hne]; [done|].
  rewrite lookup_written_ne, Hp in Hj by done.
  destruct (t !! j) as [o|]; [|done]. injection Hj as <-.
  rewrite resident_demoted in Hr.
  apply is_primary_demoted_true in Hq as [_ Hex]. specialize (Hex Hr). congruence.
Qed.

Lemma written_twice k p t : written k p (written k p t) = written k p t.
Proof.
  unfold written. destruct (is_primary p).
  - rewrite !demote_others_insert_excluded, demote_others_idemp.
    by rewrite insert_insert_eq.
  - by rewrite insert_insert_eq.
Qed.


End photo_counts.

(** X1.  [set_primary] on a stored photo leaves its resident with exactly
    one primary photo, whatever the table was before, also one with several
    primaries. *)
Theorem X1_set_primary_exactly_one (now : Z) (k : nat) (p : PhotoRow) (t : PhotoTable) :
  t !! k = Some p →
  primary_count (resident p) (final (PhotoViewSet_set_primary now k t)) = 1.
Proof.
  intros Hk. destruct (set_primary_found now k p t Hk) as [_ ->].
  rewrite <-demote_others_insert_excluded.
  change (primary_count (resident (with_is_primary true p))
            (written k (with_is_primary true p) t) = 1).
  by apply written_primary_count.
Qed.

Lemma X1_set_primary_exactly_one_witness :
  sample_photos !! 2 = Some photo_b ∧
  primary_count (resident photo_b) (final (PhotoViewSet_set_primary 40%Z 2 sample_photos)) = 1.
Proof.
  assert (sample_photos !! 2 = Some photo_b) as H by reflexivity.
  split; [exact H | exact (X1_set_primary_exactly_one 40%Z 2 photo_b sample_photos H)].
Defined.



(** X4.  Saving again the instance [Photo.save()] returned changes
    nothing: the same instance comes back and the table is the same. *)
Theorem X4_save_twice (now now' : Z) (self : Photo) (t : PhotoTable) :
  let saved := Photo_save now None self t in
  ∀ self', result saved = Ok self' →
    result (Photo_save now' None self' (final saved)) = Ok self' ∧
    final (Photo_save now' None self' (final saved)) = final saved.
Proof.
  rewrite Photo_save_full. simpl.
  set (k := stored_key self t). set (p := stored_row now self t).
  intros self' [= <-]. rewrite Photo_save_full. simpl.
  assert (stored_key (mkPhoto (Some k) p) (written k p t) = k) as -> by done.
  assert (stored_row now' (mkPhoto (Some k) p) (written k p t) = p) as ->
    by (unfold stored_row; simpl; by rewrite lookup_written_eq).
  split; [done|]. apply written_twice.
Qed.

Lemma X4_save_twice_witness :
  result (Photo_save 40%Z None (mkPhoto (Some 2) (with_is_primary true photo_b))
            sample_photos)
    = Ok (mkPhoto (Some 2) (with_is_primary true photo_b)) ∧
  final (Photo_save 50%Z None (mkPhoto (Some 2) (with_is_primary true photo_b))
           (final (Photo_save 40%Z None (mkPhoto (Some 2) (with_is_primary true photo_b))
                     sample_photos)))
    = final (Photo_save 40%Z None (mkPhoto (Some 2) (with_is_primary true photo_b))
               sample_photos).
Proof.
  assert (result (Photo_save 40%Z None (mkPhoto (Some 2) (with_is_primary true photo_b))
                    sample_photos)
          = Ok (mkPhoto (Some 2) (with_is_primary true photo_b))) as H by reflexivity.
  split; [exact H|].
  exact (proj2 (X4_save_twice 40%Z 50%Z (mkPhoto (Some 2) (with_is_primary true photo_b))
                  sample_photos _ H)).
Defined.

Section partial_save.
Implicit Types (t : PhotoTable) (p q o : PhotoRow) (k j : nat) (r : nat).

(** A save restricted to the columns [c :: cols] of a stored row. *)
Lemma Photo_save_partial now c cols k new o t :
  t !! k = Some o →
  Photo_save now (Some (c :: cols)) (mkPhoto (Some k) new) t =
    let w := write_columns (c :: cols) new o in
    mkRun (Ok (mkPhoto (Some k) new))
      (if is_primary new then demote_others (resident new) (Some k) (<[k := w]> t)
       else <[k := w]> t)
      (<[k := w]> t ::
         if is_primary new then [demote_others (resident new) (Some k) (<[k := w]> t)]
         else []).
Proof.
  intros Hk. unfold Photo_save. rewrite bind_run. unfold Model_save. simpl.
  rewrite Hk. simpl. by destruct (is_primary new).
Qed.

Lemma resident_write_columns cols new o :
  col_resident ∈ cols ∨ resident new = resident o →
  resident (write_columns cols new o) = resident new.
Proof.
  intros H. unfold write_columns. simpl. case_bool_decide; [done|].
  destruct H; [done | congruence].
Qed.

Lemma is_primary_write_columns cols new o :
  col_is_primary ∈ cols ∨ is_primary new = is_primary o →
  is_primary (write_columns cols new o) = is_primary new.
Proof.
  intros H. unfold write_columns. simpl. case_bool_decide; [done|].
  destruct H; [done | congruence].
Qed.
End partial_save.

(** X5.  A save restricted by a non-empty [update_fields] cannot insert:
    for an instance without a key it raises [ValueError], for a key without
    a row [DatabaseError]; in both cases the table is as before and nothing
    is committed, and no demotion runs. *)
Theorem X5_partial_save_errors (now : Z) (c : column) (cols : list column)
    (new : PhotoRow) (k : nat) (t : PhotoTable) :
  Photo_save now (Some (c :: cols)) (mkPhoto None new) t = mkRun (Raise ValueError) t [] ∧
  (t !! k = None →
   Photo_save now (Some (c :: cols)) (mkPhoto (Some k) new) t
     = mkRun (Raise DatabaseError) t []).
Proof.
  split; [done|]. intros Hk.
  unfold Photo_save. rewrite bind_run. unfold Model_save. simpl. by rewrite Hk.
Qed.

Lemma X5_partial_save_errors_witness :
  sample_photos !! 9 = None ∧
  Photo_save 40%Z (Some [col_is_primary]) (mkPhoto (Some 9) photo_a) sample_photos
    = mkRun (Raise DatabaseError) sample_photos [].
Proof.
  assert (sample_photos !! 9 = None) as H by reflexivity.
  split; [exact H|].
  exact (proj2 (X5_partial_save_errors 40%Z col_is_primary [] photo_a 9 sample_photos) H).
Defined.

(** X6.  A save with an empty [update_fields] writes no row, so the
    instance's own row stays as stored; but when the instance in memory is
    primary its siblings are demoted all the same: afterwards no other photo
    of its resident is primary, and rows of other residents are untouched. *)
Theorem X6_empty_update_fields (now : Z) (self : Photo) (t : PhotoTable) :
  let after := Photo_save now (Some []) self t in
  result after = Ok self ∧
  (is_primary (row self) = false → final after = t ∧ committed after = []) ∧
  (is_primary (row self) = true →
     (∀ k, pk self = Some k → final after !! k = t !! k) ∧
     (∀ j q, Some j ≠ pk self → final after !! j = Some q →
             resident q = resident (row self) → is_primary q = false) ∧
     (∀ j q, resident q ≠ resident (row self) →
             (final after !! j = Some q ↔ t !! j = Some q))).
Proof.
  unfold Photo_save. rewrite bind_run. simpl.
  destruct (is_primary (row self)) eqn:Hp; simpl.
  - split; [done|]. split; [done|]. intros _. split; [|split].
    + intros k Hk. rewrite lookup_demote_others, Hk.
      destruct (t !! k) as [o|]; [|done]. simpl. by rewrite demoted_excluded.
    + intros j q Hj. rewrite lookup_demote_others.
      destruct (t !! j) as [o|]; [|done]. simpl. intros [= <-].
      rewrite resident_demoted. intros Hr.
      destruct (is_primary (demoted _ _ j o)) eqn:Hd; [|done].
      apply is_primary_demoted_true in Hd as [_ Hex]. specialize (Hex Hr). congruence.
    + intros j q Hq. rewrite lookup_demote_others.
      destruct (t !! j) as [o|]; [|done]. simpl.
      destruct (decide (resident o = resident (row self))) as [Ho|Ho].
      * split; intros [= <-]; rewrite ?resident_demoted in Hq; congruence.
      * by rewrite demoted_other_resident.
  - split; [done|]. split; [done|]. done.
Qed.

(** X7.  A save restricted by [update_fields] keeps the invariant when the
    instance agrees with its stored row on the resident and on the flag
    unless it writes them: from a table with at most one primary photo per
    resident it leaves such a table. *)
Theorem X7_partial_save_in_sync (now : Z) (c : column) (cols : list column) (k : nat)
    (new o : PhotoRow) (t : PhotoTable) :
  (∀ r, primary_count r t ≤ 1) →
  t !! k = Some o →
  (col_resident ∈ c :: cols ∨ resident new = resident o) →
  (col_is_primary ∈ c :: cols ∨ is_primary new = is_primary o) →
  ∀ r, primary_count r
         (final (Photo_save now (Some (c :: cols)) (mkPhoto (Some k) new) t)) ≤ 1.
Proof.
  intros H0%unique_primary_count Hk Hres Hflag.
  apply unique_primary_count.
  rewrite (Photo_save_partial _ _ _ _ _ _ _ Hk). simpl.
  set (w := write_columns (c :: cols) new o).
  assert (resident w = resident new) as Hr by (by apply resident_write_columns).
  assert (is_primary w = is_primary new) as Hp by (by apply is_primary_write_columns).
  rewrite <-Hr, <-Hp. by apply (unique_primary_written k w).
Qed.

Lemma X7_partial_save_in_sync_witness :
  (∀ r, primary_count r (<[2 := photo_b]> ∅) ≤ 1) ∧
  <[2 := photo_b]> (∅ : PhotoTable) !! 2 = Some photo_b ∧
  ∀ r, primary_count r
         (final (Photo_save 40%Z (Some [col_is_primary])
                   (mkPhoto (Some 2) (with_is_primary true photo_b))
                   (<[2 := photo_b]> ∅))) ≤ 1.
Proof.
  assert (∀ r, primary_count r (<[2 := photo_b]> ∅) ≤ 1) as H0.
  { apply unique_primary_count, unique_primary_insert_secondary; [|reflexivity].
    intros k1 k2 p1 p2 H. rewrite lookup_empty in H. discriminate H. }
  assert (<[2 := photo_b]> (∅ : PhotoTable) !! 2 = Some photo_b) as Hk by reflexivity.
  split; [exact H0|]. split; [exact Hk|].
  exact (X7_partial_save_in_sync 40%Z col_is_primary [] 2
           (with_is_primary true photo_b) photo_b (<[2 := photo_b]> ∅) H0 Hk
           (or_intror eq_refl) (or_introl (list_elem_of_here _ _))).
Defined.

(** X8.  The same save with the instance out of step can break the
    invariant: writing only the [resident] column of a stored primary photo,
    with the flag false in memory, moves it to the new resident without any
    demotion; if that resident has a primary photo already, it has two
    afterwards. *)
Theorem X8_partial_save_out_of_step (now : Z) (k j : nat) (new o q : PhotoRow)
    (t : PhotoTable) :
  t !! k = Some o → is_primary o = true →
  t !! j = Some q → is_primary q = true → j ≠ k →
  resident new = resident q → is_primary new = false →
  2 ≤ primary_count (resident q)
        (final (Photo_save now (Some [col_resident]) (mkPhoto (Some k) new) t)).
Proof.
  intros Hk Ho Hj Hq Hne Hres Hnew.
  rewrite (Photo_save_partial _ _ _ _ _ _ _ Hk). simpl. rewrite Hnew.
  apply (primary_count_ge_2 _ _ k j (write_columns [col_resident] new o) q);
    [done | by rewrite lookup_insert_eq | done | done
    | by rewrite lookup_insert_ne | done | done].
Qed.

Lemma X8_partial_save_out_of_step_witness :
  sample_photos !! 1 = Some photo_a ∧ sample_photos !! 3 = Some photo_c ∧
  2 ≤ primary_count 8
        (final (Photo_save 40%Z (Some [col_resident])
                  (mkPhoto (Some 1) (mkPhotoRow 8 "a.png" false 10%Z)) sample_photos)).
Proof.
  assert (sample_photos !! 1 = Some photo_a) as H1 by reflexivity.
  assert (sample_photos !! 3 = Some photo_c) as H3 by reflexivity.
  split; [exact H1|]. split; [exact H3|].
  exact (X8_partial_save_out_of_step 40%Z 1 3 (mkPhotoRow 8 "a.png" false 10%Z)
           photo_a photo_c sample_photos H1 eq_refl H3 eq_refl
           ltac:(lia) eq_refl eq_refl).
Defined.

(** X9.  [Photo.save()] of a primary instance commits twice, the row first
    and the demotion second: when another photo of the resident is primary,
    the first committed state has at least two primary photos of the
    resident, and the second, which is the final one, exactly one. *)
Theorem X9_save_commits_two_primaries (now : Z) (self : Photo) (j : nat) (q : PhotoRow)
    (t : PhotoTable) :
  is_primary (row self) = true →
  t !! j = Some q → Some j ≠ pk self →
  resident q = resident (row self) → is_primary q = true →
  ∃ t1 t2,
    committed (Photo_save now None self t) = [t1; t2] ∧
    2 ≤ primary_count (resident (row self)) t1 ∧
    t2 = final (Photo_save now None self t) ∧
    primary_count (resident (row self)) t2 = 1.
Proof.
  intros Hp Hj Hne Hr Hq. rewrite Photo_save_full. simpl.
  set (k := stored_key self t). set (p := stored_row now self t).
  assert (resident p = resident (row self)) as Hrp by apply resident_stored_row.
  assert (is_primary p = true) as Hpp by (subst p; by rewrite is_primary_stored_row).
  assert (j ≠ k) as Hjk.
  { intros ->. subst k. apply stored_key_free in Hj. congruence. }
  rewrite Hpp. eexists _, _. split; [done|]. split; [|split].
  - apply (primary_count_ge_2 _ _ k j p q);
      [done | by rewrite lookup_insert_eq | done | done
      | by rewrite lookup_insert_ne | done | done].
  - unfold written. by rewrite Hpp.
  - rewrite <-Hrp. rewrite <-(written_primary_count k p t Hpp).
    unfold written. by rewrite Hpp.
Qed.

Lemma X9_save_commits_two_primaries_witness :
  sample_photos !! 1 = Some photo_a ∧
  ∃ t1 t2,
    committed (Photo_save 40%Z None (mkPhoto None (mkPhotoRow 7 "d.png" true 0%Z))
                 sample_photos) = [t1; t2] ∧
    2 ≤ primary_count 7 t1 ∧
    t2 = final (Photo_save 40%Z None (mkPhoto None (mkPhotoRow 7 "d.png" true 0%Z))
                  sample_photos) ∧
    primary_count 7 t2 = 1.
Proof.
  assert (sample_photos !! 1 = Some photo_a) as H1 by reflexivity.
  split; [exact H1|].
  exact (X9_save_commits_two_primaries 40%Z
           (mkPhoto None (mkPhotoRow 7 "d.png" true 0%Z)) 1 photo_a sample_photos
           eq_refl H1 ltac:(discriminate) eq_refl eq_refl).
Defined.

(** X10.  [set_primary] on a stored photo that is not primary commits the
    demotion of its siblings before it writes the flag: the first committed
    state has no primary photo of the resident at all. *)
Theorem X10_set_primary_commits_no_primary (now : Z) (k : nat) (p : PhotoRow)
    (t : PhotoTable) :
  t !! k = Some p → is_primary p = false →
  ∃ t1 rest,
    committed (PhotoViewSet_set_primary now k t) = t1 :: rest ∧
    primary_count (resident p) t1 = 0 ∧
    last (t1 :: rest) = Some (final (PhotoViewSet_set_primary now k t)).
Proof.
  intros Hk Hp. unfold PhotoViewSet_set_primary.
  rewrite bind_run, PhotoViewSet_get_object_run, Hk. simpl. rewrite Hp. simpl.
  assert (demote_others (resident p) (Some k) t !! k = Some p) as Hdk.
  { by rewrite lookup_demote_others, Hk; simpl; rewrite demoted_excluded. }
  rewrite bind_run. unfold Photo_save. rewrite bind_run. unfold Model_save. simpl.
  rewrite Hdk. simpl.
  eexists _, _. split; [done|]. split; [|done].
  apply primary_count_0. intros j q. rewrite lookup_demote_others.
  destruct (t !! j) as [o|] eqn:Hj; [|done]. simpl. intros [= <-].
  rewrite resident_demoted. intros Hr.
  destruct (is_primary (demoted (resident p) (Some k) j o)) eqn:Hd; [|done].
  apply is_primary_demoted_true in Hd as [Ho Hex]. specialize (Hex Hr).
  injection Hex as ->. congruence.
Qed.

Lemma X10_set_primary_commits_no_primary_witness :
  sample_photos !! 2 = Some photo_b ∧ is_primary photo_b = false ∧
  ∃ t1 rest,
    committed (PhotoViewSet_set_primary 40%Z 2 sample_photos) = t1 :: rest ∧
    primary_count (resident photo_b) t1 = 0 ∧
    last (t1 :: rest) = Some (final (PhotoViewSet_set_primary 40%Z 2 sample_photos)).
Proof.
  assert (sample_photos !! 2 = Some photo_b) as H by reflexivity.
  split; [exact H|]. split; [reflexivity|].
  exact (X10_set_primary_commits_no_primary 40%Z 2 photo_b sample_photos H eq_refl).
Defined.

(** X11.  [PhotoSerializer.update] commits once, its final table; started
    from a table with at most one primary photo per resident, the one state
    it makes visible has at most one too, and when the updated instance is
    primary its resident has exactly one. *)
Theorem X11_serializer_update_commits_once (now : Z) (instance : Photo)
    (d : PhotoAttrs) (t : PhotoTable) :
  let updated := PhotoSerializer_update now instance d t in
  committed updated = [final updated] ∧
  ((∀ r, primary_count r t ≤ 1) → ∀ r, primary_count r (final updated) ≤ 1) ∧
  (is_primary (setattrs d (row instance)) = true →
   primary_count (resident (setattrs d (row instance))) (final updated) = 1).
Proof.
  rewrite PhotoSerializer_update_run. simpl.
  set (self := mkPhoto _ _). split; [done|]. split.
  - intros H0%unique_primary_count. apply unique_primary_count.
    by apply unique_primary_written.
  - intros Hp.
    pose proof (written_primary_count (stored_key self t) (stored_row now self t) t) as H.
    rewrite resident_stored_row, is_primary_stored_row in H. by apply H.
Qed.

(** X12.  [retrieve], [destroy] and [set_primary] of a key without a row
    raise [Http404], leave the table as it is and commit nothing. *)
Theorem X12_missing_photo_404 (now : Z) (k : nat) (t : PhotoTable) :
  t !! k = None →
  PhotoViewSet_retrieve k t = mkRun (Raise Http404) t [] ∧
  PhotoViewSet_destroy k t = mkRun (Raise Http404) t [] ∧
  PhotoViewSet_set_primary now k t = mkRun (Raise Http404) t [].
Proof.
  intros Hk. unfold PhotoViewSet_retrieve, PhotoViewSet_destroy, PhotoViewSet_set_primary.
  by rewrite !bind_run, PhotoViewSet_get_object_run, Hk.
Qed.

Lemma X12_missing_photo_404_witness :
  sample_photos !! 9 = None ∧
  PhotoViewSet_retrieve 9 sample_photos = mkRun (Raise Http404) sample_photos [] ∧
  PhotoViewSet_destroy 9 sample_photos = mkRun (Raise Http404) sample_photos [] ∧
  PhotoViewSet_set_primary 40%Z 9 sample_photos = mkRun (Raise Http404) sample_photos [].
Proof.
  assert (sample_photos !! 9 = None) as H by reflexivity.
  split; [exact H | exact (X12_missing_photo_404 40%Z 9 sample_photos H)].
Defined.

(** X13.  [destroy] of a stored photo answers 204, commits once, removes
    that row and no other (one photo fewer), and afterwards the key is gone:
    [retrieve], [set_primary] and a second [destroy] of it raise [Http404]. *)
Theorem X13_destroy_then_gone (now : Z) (k : nat) (p : PhotoRow) (t : PhotoTable) :
  t !! k = Some p →
  let after := PhotoViewSet_destroy k t in
  result after = Ok (mkResponse HTTP_204_NO_CONTENT NoContent) ∧
  final after = delete k t ∧
  committed after = [final after] ∧
  S (size (final after)) = size t ∧
  result (PhotoViewSet_retrieve k (final after)) = Raise Http404 ∧
  result (PhotoViewSet_set_primary now k (final after)) = Raise Http404 ∧
  PhotoViewSet_destroy k (final after) = mkRun (Raise Http404) (final after) [].
Proof.
  intros Hk after.
  assert (after = mkRun (Ok (mkResponse HTTP_204_NO_CONTENT NoContent)) (delete k t)
                    [delete k t]) as ->.
  { subst after. unfold PhotoViewSet_destroy.
    by rewrite bind_run, PhotoViewSet_get_object_run, Hk. }
  simpl. split; [done|]. split; [done|]. split; [done|].
  split.
  { rewrite map_size_delete_Some by done.
    assert (size t ≠ 0) by (apply map_size_ne_0_lookup; eauto). lia. }
  assert (delete k t !! k = None) as Hgone by apply lookup_delete_eq.
  unfold PhotoViewSet_retrieve, PhotoViewSet_destroy, PhotoViewSet_set_primary.
  by rewrite !bind_run, PhotoViewSet_get_object_run, Hgone.
Qed.

Lemma X13_destroy_then_gone_witness :
  sample_photos !! 1 = Some photo_a ∧
  let after := PhotoViewSet_destroy 1 sample_photos in
  result after = Ok (mkResponse HTTP_204_NO_CONTENT NoContent) ∧
  final after = delete 1 sample_photos ∧
  committed after = [final after] ∧
  S (size (final after)) = size sample_photos ∧
  result (PhotoViewSet_retrieve 1 (final after)) = Raise Http404 ∧
  result (PhotoViewSet_set_primary 40%Z 1 (final after)) = Raise Http404 ∧
  PhotoViewSet_destroy 1 (final after) = mkRun (Raise Http404) (final after) [].
Proof.
  assert (sample_photos !! 1 = Some photo_a) as H by reflexivity.
  split; [exact H | exact (X13_destroy_then_gone 40%Z 1 photo_a sample_photos H)].
Defined.

Section primary_photo_facts.
Implicit Types (t : PhotoTable) (p q : PhotoRow) (k j : nat) (r : nat).

Lemma written_primary_unique k p t j q :
  is_primary p = true →
  written k p t !! j = Some q → resident q = resident p → is_primary q = true → j = k.
Proof.
  intros Hp Hj Hr Hq. destruct (decide (j = k)) as [|Hne]; [done|].
  rewrite lookup_written_ne, Hp in Hj by done.
  destruct (t !! j) as [o|]; [|done]. injection Hj as <-.
  rewrite resident_demoted in Hr.
  apply is_primary_demoted_true in Hq as [_ Hex]. specialize (Hex Hr). congruence.
Qed.

Lemma head_unique {B} (l : list B) x :
  x ∈ l → (∀ y, y ∈ l → y = x) → head l = Some x.
Proof.
  destruct l as [|y l]; [by intros ?%elem_of_nil|].
  intros _ H. simpl. f_equal. apply H. by left.
Qed.

Lemma elem_of_filter_bool {B} (f : B → bool) (l : list B) x :
  x ∈ List.filter f l ↔ x ∈ l ∧ f x = true.
Proof. by rewrite !list_elem_of_In, filter_In. Qed.

Lemma head_filter_Some {B} (f : B → bool) (l : list B) x :
  head (List.filter f l) = Some x → x ∈ l ∧ f x = true.
Proof.
  intros H. apply elem_of_filter_bool.
  destruct (List.filter f l); [done|]. injection H as ->. by left.
Qed.

Lemma head_filter_StronglySorted {B} (R : B → B → Prop) (f : B → bool) (l : list B) x :
  StronglySorted R l → head (List.filter f l) = Some x →
  ∀ y, y ∈ List.filter f l → y = x ∨ R x y.
Proof.
  induction 1 as [|a l Hs IH Hall]; simpl; [done|].
  destruct (f a) eqn:Hfa; simpl.
  - intros [= <-] y [-> | Hy]%elem_of_cons; [by left | right].
    apply elem_of_filter_bool in Hy as [Hy _].
    rewrite Forall_forall in Hall. by apply Hall.
  - done.
Qed.

Lemma uploaded_desc_total a b : uploaded_desc a b = true ∨ uploaded_desc b a = true.
Proof. unfold uploaded_desc. rewrite !Z.leb_le. lia. Qed.

Lemma photos_of_sorted r t :
  StronglySorted (fun a b => uploaded_desc a b = true) (photos_of r t).
Proof.
  apply Sorted_StronglySorted.
  - intros a b c. unfold uploaded_desc. rewrite !Z.leb_le. lia.
  - apply sort_by_Sorted, uploaded_desc_total.
Qed.

Lemma primary_photo_None r t :
  primary_photo r t = None ↔ primary_count r t = 0.
Proof.
  unfold primary_photo. split.
  - intros H. apply primary_count_0. intros j q Hj Hr.
    destruct (is_primary q) eqn:Hq; [|done].
    assert (mkPhoto (Some j) q ∈ List.filter (fun x => is_primary (row x)) (photos_of r t))
      as Hin by (apply elem_of_filter_bool; split; [apply elem_of_photos_of; eauto | done]).
    destruct (List.filter _ _); [by apply elem_of_nil in Hin | done].
  - intros H0. apply head_filter_None.
    intros x (j & q & -> & Hj & Hr)%elem_of_photos_of. simpl.
    by apply (primary_count_0_inv r t j q).
Qed.
End primary_photo_facts.

Lemma primary_photo_set_primary (now : Z) (k : nat) (p : PhotoRow) (t : PhotoTable) :
  t !! k = Some p →
  primary_photo (resident p) (final (PhotoViewSet_set_primary now k t))
    = Some (mkPhoto (Some k) (with_is_primary true p)).
Proof.
  intros Hk. destruct (set_primary_found now k p t Hk) as [_ ->].
  rewrite <-demote_others_insert_excluded.
  change (demote_others (resident p) (Some k) (<[k:=with_is_primary true p]> t))
    with (written k (with_is_primary true p) t).
  unfold primary_photo. apply head_unique.
  - apply elem_of_filter_bool. split; [|done].
    apply elem_of_photos_of. exists k, (with_is_primary true p).
    split; [done|]. split; [apply lookup_written_eq | done].
  - intros y [(j & q & -> & Hj & Hr)%elem_of_photos_of Hq]%elem_of_filter_bool.
    simpl in Hq.
    assert (j = k) as -> by (by apply (written_primary_unique k (with_is_primary true p) t j q)).
    rewrite lookup_written_eq in Hj. by injection Hj as <-.
Qed.

(** X14.  After [set_primary] on a stored photo, [Resident.primary_photo] of
    its resident is that photo, flagged primary. *)
Theorem X14_primary_photo_after_set_primary (now : Z) (k : nat) (p : PhotoRow)
    (t : PhotoTable) :
  t !! k = Some p →
  primary_photo (resident p) (final (PhotoViewSet_set_primary now k t))
    = Some (mkPhoto (Some k) (with_is_primary true p)).
Proof. apply primary_photo_set_primary. Qed.

Lemma X14_primary_photo_after_set_primary_witness :
  sample_photos !! 2 = Some photo_b ∧
  primary_photo (resident photo_b) (final (PhotoViewSet_set_primary 40%Z 2 sample_photos))
    = Some (mkPhoto (Some 2) (with_is_primary true photo_b)).
Proof.
  assert (sample_photos !! 2 = Some photo_b) as H by reflexivity.
  split; [exact H|].
  exact (X14_primary_photo_after_set_primary 40%Z 2 photo_b sample_photos H).
Defined.

(** X15.  [Resident.primary_photo] is [None] exactly when the resident has
    no photo flagged primary; otherwise it is a stored photo of the resident
    that is flagged primary, and, should several be flagged, one with the
    latest upload time among them. *)
Theorem X15_primary_photo_characterised (r : nat) (t : PhotoTable) :
  (primary_photo r t = None ↔ primary_count r t = 0) ∧
  (∀ x, primary_photo r t = Some x →
     ∃ k p, x = mkPhoto (Some k) p ∧ t !! k = Some p ∧ resident p = r ∧
            is_primary p = true ∧
            ∀ j q, t !! j = Some q → resident q = r → is_primary q = true →
                   (uploaded_at q ≤ uploaded_at p)%Z).
Proof.
  split; [apply primary_photo_None|].
  intros x Hx. unfold primary_photo in Hx.
  destruct (head_filter_Some _ _ _ Hx) as [(k & p & -> & Hk & Hr)%elem_of_photos_of Hp].
  exists k, p. repeat (split; [done|]).
  intros j q Hj Hrq Hq.
  destruct (head_filter_StronglySorted _ _ _ _ (photos_of_sorted r t) Hx
              (mkPhoto (Some j) q)) as [[= -> ->] | Hle].
  - apply elem_of_filter_bool. split; [|done]. apply elem_of_photos_of. eauto.
  - lia.
  - unfold uploaded_desc in Hle. simpl in Hle. by apply Z.leb_le.
Qed.



Section nested_route.
Implicit Types (params : QueryParams) (table : list Resident).

Lemma elem_of_get_queryset_selects params table x :
  x ∈ get_queryset params table ↔ x ∈ table ∧ selects params x.
Proof.
  rewrite elem_of_get_queryset. unfold selects.
  split; intros (Hin & Hq & Ha & Hs); (split; [done|]); (split; [|done]).
  - intros q Hpq. destruct (decide (q = "")) as [-> | Hne].
    + apply q_matches_empty.
    + by apply Q_any_field_spec, Hq.
  - intros q Hpq _. by apply Q_any_field_spec, Hq.
Qed.

Lemma find_None {B} (f : B → bool) (l : list B) :
  (∀ x, x ∈ l → f x = false) → List.find f l = None.
Proof.
  induction l as [|y l IH]; simpl; [done|]. intros H.
  rewrite (H y) by (by left). apply IH. intros x Hx. apply H. by right.
Qed.

Lemma length_filter_partition {B} (f g : B → bool) (l : list B) :
  (∀ x, g x = negb (f x)) →
  length (List.filter f l) + length (List.filter g l) = length l.
Proof.
  intros Hfg. induction l as [|x l IH]; simpl; [done|].
  rewrite Hfg. destruct (f x); simpl; lia.
Qed.
End nested_route.

(** X17.  The nested photos route looks its resident up in the filtered
    queryset: when no resident with the route's key passes the filters of the
    query string (there is none, or the filters exclude it), the route raises
    [Http404] for either method, and nothing is stored or committed. *)
Theorem X17_nested_route_404 (now : Z) (method : string) (params : QueryParams)
    (table : list Resident) (rid : nat) (form : PhotoForm) (t : PhotoTable) :
  (∀ x, x ∈ table → resident_pk x = rid → ¬ selects params x) →
  ResidentViewSet_photos now method params table rid form t = mkRun (Raise Http404) t [].
Proof.
  intros Hex. unfold ResidentViewSet_photos, ResidentViewSet_get_object.
  rewrite find_None; [done|].
  intros x [Hin Hsel]%elem_of_get_queryset_selects.
  apply bool_decide_eq_false. intros Hpk. by apply (Hex x).
Qed.

Lemma X17_nested_route_404_witness :
  (∀ x, x ∈ [ann] → resident_pk x = 7 →
        ¬ selects (mkQueryParams None None (Some "false")) x) ∧
  ResidentViewSet_photos 40%Z "post" (mkQueryParams None None (Some "false")) [ann] 7
    (mkPhotoForm (Wellformed "d.png") Missing) sample_photos
    = mkRun (Raise Http404) sample_photos [].
Proof.
  assert (∀ x, x ∈ [ann] → resident_pk x = 7 →
               ¬ selects (mkQueryParams None None (Some "false")) x) as H.
  { intros x ->%list_elem_of_singleton _ (_ & _ & Hs).
    specialize (Hs "false" eq_refl). discriminate Hs. }
  split; [exact H|].
  exact (X17_nested_route_404 40%Z "post" (mkQueryParams None None (Some "false"))
           [ann] 7 (mkPhotoForm (Wellformed "d.png") Missing) sample_photos H).
Defined.

(** X18.  The GET of the nested photos route (the method is compared in
    lower case) answers 200 with exactly the stored photos of the route's
    resident, newest upload first; it changes and commits nothing. *)
Theorem X18_nested_route_get (now : Z) (method : string) (params : QueryParams)
    (table : list Resident) (rid : nat) (form : PhotoForm) (t : PhotoTable) :
  is_Some (List.find (fun x => bool_decide (resident_pk x = rid))
             (get_queryset params table)) →
  lower method = "get" →
  let after := ResidentViewSet_photos now method params table rid form t in
  ∃ l,
    result after = Ok (mkResponse HTTP_200_OK (PhotoListData l)) ∧
    final after = t ∧ committed after = [] ∧
    (∀ y, y ∈ l ↔ ∃ k p, y = mkPhoto (Some k) p ∧ t !! k = Some p ∧ resident p = rid) ∧
    StronglySorted (fun a b => (uploaded_at (row b) ≤ uploaded_at (row a))%Z) l.
Proof.
  intros [x Hx] Hget after. subst after.
  unfold ResidentViewSet_photos, ResidentViewSet_get_object.
  rewrite Hx, bind_run. simpl. rewrite Hget. simpl.
  rewrite (get_object_found _ _ _ _ Hx).
  eexists. split; [done|]. split; [done|]. split; [done|].
  split; [intros y; apply elem_of_photos_of|].
  pose proof (photos_of_sorted rid t) as Hs.
  induction Hs as [|a l Hs IH Hall]; constructor; [done|].
  eapply Forall_impl; [exact Hall|]. intros b Hb. simpl in Hb.
  unfold uploaded_desc in Hb. by apply Z.leb_le.
Qed.

Lemma X18_nested_route_get_witness :
  is_Some (List.find (fun x => bool_decide (resident_pk x = 7))
             (get_queryset (mkQueryParams None None None) [ann])) ∧
  lower "GET" = "get" ∧
  ∃ l,
    result (ResidentViewSet_photos 40%Z "GET" (mkQueryParams None None None) [ann] 7
              (mkPhotoForm Missing Missing) sample_photos)
      = Ok (mkResponse HTTP_200_OK (PhotoListData l)) ∧
    final (ResidentViewSet_photos 40%Z "GET" (mkQueryParams None None None) [ann] 7
             (mkPhotoForm Missing Missing) sample_photos) = sample_photos.
Proof.
  assert (is_Some (List.find (fun x => bool_decide (resident_pk x = 7))
                     (get_queryset (mkQueryParams None None None) [ann]))) as Hfound
    by (eexists; reflexivity).
  assert (lower "GET" = "get") as Hget by reflexivity.
  split; [exact Hfound|]. split; [exact Hget|].
  destruct (X18_nested_route_get 40%Z "GET" (mkQueryParams None None None) [ann] 7
              (mkPhotoForm Missing Missing) sample_photos Hfound Hget)
    as (l & Hres & Hfin & _).
  exists l. split; [exact Hres | exact Hfin].
Defined.

(** X19.  [ResidentPermissions], for every action name, known to the view
    or not: an anonymous request is refused; an authenticated staff user is
    allowed; an authenticated user who is not staff is allowed everything but
    [destroy]. *)
Theorem X19_resident_permission_matrix (auths : list Authenticator)
    (a : Authenticator) (action : string) :
  has_permission (anonymous_request auths) action = false ∧
  has_permission (authenticated_request auths a true) action = true ∧
  has_permission (authenticated_request auths a false) action
    = negb (bool_decide (action = "destroy")).
Proof.
  unfold has_permission. repeat case_bool_decide; done.
Qed.

(** X27.  For a staff user the admin summary answers 200 with the number of
    residents, of active and of inactive residents and of photos, and the
    active and inactive counts add up to the total. *)
Theorem X27_admin_summary_counts (request : Request) (table : list Resident)
    (t : PhotoTable) :
  IsAdminUser request = true →
  ∃ active inactive,
    AdminSummaryView_get request table t
      = mkResponse HTTP_200_OK (SummaryData (length table) active inactive (size t)) ∧
    active = length (List.filter is_active table) ∧
    active + inactive = length table.
Proof.
  intros Hstaff. unfold AdminSummaryView_get, dispatch. simpl. rewrite Hstaff. simpl.
  eexists _, _. split; [done|]. split.
  - f_equal. apply List.filter_ext. intros x. by destruct (is_active x).
  - apply length_filter_partition. intros x. by destruct (is_active x).
Qed.

Lemma X27_admin_summary_counts_witness :
  IsAdminUser (authenticated_request [] (mkAuthenticator (Some "Bearer")) true) = true ∧
  ∃ active inactive,
    AdminSummaryView_get (authenticated_request [] (mkAuthenticator (Some "Bearer")) true)
      [cat; bob; ann] sample_photos
      = mkResponse HTTP_200_OK (SummaryData 3 active inactive (size sample_photos)) ∧
    active = length (List.filter is_active [cat; bob; ann]) ∧
    active + inactive = 3.
Proof.
  assert (IsAdminUser (authenticated_request [] (mkAuthenticator (Some "Bearer")) true)
          = true) as H by reflexivity.
  split; [exact H|].
  exact (X27_admin_summary_counts _ [cat; bob; ann] sample_photos H).
Defined.

(** X28.  The URL the resident serializer gives for the primary photo: null
    when no photo of the resident is flagged primary; after [set_primary] on
    a stored photo, what the photo serializer gives for that photo's image,
    which is null exactly when the photo names no file. *)
Theorem X28_primary_photo_url (url : string → string)
    (build_absolute_uri : Request → string → string) (context_request : option Request)
    (now : Z) (k : nat) (p : PhotoRow) (r : nat) (t : PhotoTable) :
  (primary_count r t = 0 →
   get_primary_photo_url url build_absolute_uri context_request r t = None) ∧
  (t !! k = Some p →
   get_primary_photo_url url build_absolute_uri context_request (resident p)
     (final (PhotoViewSet_set_primary now k t))
     = get_image_url url build_absolute_uri context_request p) ∧
  (get_image_url url build_absolute_uri context_request p = None ↔ image p = "").
Proof.
  split; [|split].
  - intros H0%primary_photo_None. unfold get_primary_photo_url. by rewrite H0.
  - intros Hk. unfold get_primary_photo_url.
    by rewrite (primary_photo_set_primary now k p t Hk).
  - unfold get_image_url. destruct (image p), context_request; simpl; split; done.
Qed.

Lemma X28_primary_photo_url_witness :
  sample_photos !! 2 = Some photo_b ∧
  get_primary_photo_url (String.append "/media/") (fun _ u => String.append "http://h" u)
    None (resident photo_b) (final (PhotoViewSet_set_primary 40%Z 2 sample_photos))
    = Some "/media/b.png".
Proof.
  assert (sample_photos !! 2 = Some photo_b) as H by reflexivity.
  split; [exact H|].
  exact (proj1 (proj2 (X28_primary_photo_url (String.append "/media/")
                         (fun _ u => String.append "http://h" u) None 40%Z 2 photo_b 7
                         sample_photos)) H).
Defined.

(** X29.  [get_full_url] leaves alone a host that has a port, or any host
    when no forwarded port is given; otherwise it appends the forwarded port,
    and the host it then shows would be left alone by a second pass. *)
Theorem X29_get_full_url (scheme host : string) (forwarded_port : option string) :
  (contains host ":" = true ∨ truthy forwarded_port = false →
   get_full_url scheme host forwarded_port
     = String.append scheme (String.append "://" host)) ∧
  (∀ port, forwarded_port = Some port → port ≠ "" → contains host ":" = false →
     let host' := String.append host (String.append ":" port) in
     get_full_url scheme host forwarded_port
       = String.append scheme (String.append "://" host') ∧
     get_full_url scheme host' forwarded_port
       = get_full_url scheme host forwarded_port).
Proof.
  split.
  - unfold get_full_url. intros [-> | ->]; [done|]. by rewrite andb_false_r.
  - intros port -> Hport Hhost host'.
    apply truthy_Some in Hport. unfold get_full_url.
    rewrite Hhost, Hport. simpl. split; [done|].
    assert (contains host' ":" = true) as ->; [|done].
    apply contains_spec. by exists host, port.
Qed.

Lemma X29_get_full_url_witness :
  (contains "example.org:8443" ":" = true ∨ truthy (Some "3000") = false) ∧
  get_full_url "https" "example.org:8443" (Some "3000") = "https://example.org:8443" ∧
  get_full_url "https" "example.org" (Some "3000") = "https://example.org:3000".
Proof.
  assert (contains "example.org:8443" ":" = true ∨ truthy (Some "3000") = false) as H
    by (left; reflexivity).
  split; [exact H|]. split.
  - exact (proj1 (X29_get_full_url "https" "example.org:8443" (Some "3000")) H).
  - exact (proj1 (proj2 (X29_get_full_url "https" "example.org" (Some "3000"))
                    "3000" eq_refl ltac:(discriminate) eq_refl)).
Defined.

(* ===================================================================== *)
(** ** Further properties of the listing and of registration *)
(* ===================================================================== *)

Section listing_more.
Implicit Types (params : QueryParams) (table : list Resident).

Lemma lower_empty s : lower s = "" ↔ s = "".
Proof. by destruct s. Qed.

Lemma truthy_lower q q' : lower q = lower q' → truthy (Some q) = truthy (Some q').
Proof.
  intros H. destruct q as [|c q], q' as [|c' q']; simpl in *; congruence.
Qed.

Lemma length_sort_by {B} (leb : B → B → bool) (l : list B) :
  length (sort_by leb l) = length l.
Proof. apply Permutation_length, sort_by_Permutation. Qed.

Lemma filter_all {B} (f : B → bool) (l : list B) :
  (∀ x, x ∈ l → f x = true) → List.filter f l = l.
Proof.
  induction l as [|y l IH]; simpl; [done|]. intros H.
  rewrite (H y) by (by left). f_equal. apply IH. intros x Hx. apply H. by right.
Qed.

Lemma sort_by_sorted {B} (leb : B → B → bool) (l : list B) :
  Sorted (fun u v => leb u v = true) l → sort_by leb l = l.
Proof.
  induction 1 as [|x l Hs IH Hhd]; simpl; [done|]. rewrite IH.
  destruct Hhd as [|y l' Hxy]; simpl; [done|]. by rewrite Hxy.
Qed.

(** The queryset before it is ordered. *)
Lemma get_queryset_unfold params table :
  get_queryset params table =
    order_by_name
      (from_option
         (fun s => List.filter (fun r => bool_decide (is_active r = parse_is_active s)))
         id (param_is_active params)
         ((if truthy (param_apartment params)
           then List.filter
                  (fun r => bool_decide (apartment r = default "" (param_apartment params)))
           else id)
            ((if truthy (param_q params)
              then List.filter (Q_any_field (default "" (param_q params)))
              else id) table))).
Proof.
  unfold get_queryset.
  by destruct (param_is_active params), (truthy (param_apartment params)),
    (truthy (param_q params)).
Qed.

Lemma chunks_concat {B} (size n : nat) (l : list B) :
  length l ≤ n * size →
  concat (List.map (fun i => take size (drop (i * size) l)) (seq 0 n)) = l.
Proof.
  revert l. induction n as [|n IH]; intros l Hlen; simpl.
  - destruct l; [done | simpl in Hlen; lia].
  - rewrite <-seq_shift, List.map_map.
    rewrite (List.map_ext _ (fun i => take size (drop (i * size) (drop size l)))).
    + rewrite IH; [apply take_drop|]. rewrite length_drop. lia.
    + intros i. by rewrite drop_drop.
Qed.

Lemma num_pages_covers count size :
  0 < size → count ≤ num_pages count size * size.
Proof.
  intros Hsize. unfold num_pages.
  pose proof (Nat.div_mod_eq (count + size - 1) size) as Hdm.
  pose proof (Nat.mod_upper_bound (count + size - 1) size ltac:(lia)) as Hm.
  nia.
Qed.

Lemma get_page_size_bounds s : 1 ≤ get_page_size s ≤ max_page_size.
Proof.
  unfold get_page_size, max_page_size. destruct s as [[|n]|]; unfold page_size; lia.
Qed.
End listing_more.

(** X20.  The free-text search does not see letter case in [q]: two values
    of [q] with the same lower-case form give the same listing. *)
Theorem X20_q_case_insensitive (q q' : string) (a i : option string)
    (table : list Resident) :
  lower q = lower q' →
  get_queryset (mkQueryParams (Some q) a i) table
    = get_queryset (mkQueryParams (Some q') a i) table.
Proof.
  intros H. rewrite !get_queryset_unfold.
  cbn [param_q param_apartment param_is_active].
  rewrite (truthy_lower q q' H).
  change (default "" (Some q)) with q. change (default "" (Some q')) with q'.
  assert (Q_any_field q = Q_any_field q') as ->; [|done].
  unfold Q_any_field, icontains. by rewrite H.
Qed.

Lemma X20_q_case_insensitive_witness :
  lower "LeE" = lower "lee" ∧
  get_queryset (mkQueryParams (Some "LeE") None None) [cat; bob; ann]
    = get_queryset (mkQueryParams (Some "lee") None None) [cat; bob; ann].
Proof.
  assert (lower "LeE" = lower "lee") as H by reflexivity.
  split; [exact H|].
  exact (X20_q_case_insensitive "LeE" "lee" None None [cat; bob; ann] H).
Defined.

(** X21.  For any [q] and [apartment], a truthy and a falsy [is_active]
    value split the listing without [is_active] in two: the two listings
    have no resident in common and their lengths add up to its length. *)
Theorem X21_is_active_splits (q a : option string) (yes no : string)
    (table : list Resident) :
  parse_is_active yes = true →
  parse_is_active no = false →
  length (get_queryset (mkQueryParams q a (Some yes)) table)
    + length (get_queryset (mkQueryParams q a (Some no)) table)
    = length (get_queryset (mkQueryParams q a None) table) ∧
  ∀ r, r ∈ get_queryset (mkQueryParams q a (Some yes)) table →
       r ∉ get_queryset (mkQueryParams q a (Some no)) table.
Proof.
  intros Hyes Hno. split.
  - rewrite !get_queryset_unfold. unfold order_by_name. rewrite !length_sort_by.
    simpl. rewrite Hyes, Hno. apply length_filter_partition.
    intros x. by destruct (is_active x).
  - intros r. rewrite !elem_of_get_queryset. simpl.
    intros (_ & _ & _ & H1) (_ & _ & _ & H0).
    specialize (H1 yes eq_refl). specialize (H0 no eq_refl). congruence.
Qed.

Lemma X21_is_active_splits_witness :
  parse_is_active "Yes" = true ∧ parse_is_active "0" = false ∧
  length (get_queryset (mkQueryParams None None (Some "Yes")) [cat; bob; ann])
    + length (get_queryset (mkQueryParams None None (Some "0")) [cat; bob; ann])
    = length (get_queryset (mkQueryParams None None None) [cat; bob; ann]).
Proof.
  assert (parse_is_active "Yes" = true) as H1 by reflexivity.
  assert (parse_is_active "0" = false) as H0 by reflexivity.
  split; [exact H1|]. split; [exact H0|].
  exact (proj1 (X21_is_active_splits None None "Yes" "0" [cat; bob; ann] H1 H0)).
Defined.

(** X22.  Listing a listing again with the same parameters changes
    nothing: neither its rows nor their order. *)
Theorem X22_get_queryset_idempotent (params : QueryParams) (table : list Resident) :
  get_queryset params (get_queryset params table) = get_queryset params table.
Proof.
  set (l := get_queryset params table).
  assert (∀ x, x ∈ l →
            (truthy (param_q params) = true →
             Q_any_field (default "" (param_q params)) x = true) ∧
            (truthy (param_apartment params) = true →
             apartment x = default "" (param_apartment params)) ∧
            from_option (fun s => is_active x = parse_is_active s) True
              (param_is_active params)) as Hall.
  { intros x (_ & Hq & Ha & Hs)%elem_of_get_queryset.
    by rewrite !truthy_guard, supplied_guard in *. }
  rewrite get_queryset_unfold.
  assert ((if truthy (param_q params)
           then List.filter (Q_any_field (default "" (param_q params)))
           else id) l = l) as ->.
  { destruct (truthy (param_q params)); [|done].
    apply filter_all. intros x Hx. by apply (Hall x Hx). }
  assert ((if truthy (param_apartment params)
           then List.filter
                  (fun r => bool_decide (apartment r = default "" (param_apartment params)))
           else id) l = l) as ->.
  { destruct (truthy (param_apartment params)); [|done].
    apply filter_all. intros x Hx. apply bool_decide_eq_true. by apply (Hall x Hx). }
  assert (from_option
            (fun s => List.filter (fun r => bool_decide (is_active r = parse_is_active s)))
            id (param_is_active params) l = l) as ->.
  { destruct (param_is_active params) as [s|] eqn:Hs; [|done]. simpl.
    apply filter_all. intros x Hx. apply bool_decide_eq_true.
    destruct (Hall x Hx) as (_ & _ & H). rewrite ?Hs in H. done. }
  apply sort_by_sorted. subst l. unfold get_queryset, order_by_name.
  apply sort_by_Sorted, name_leb_total.
Qed.

(** X23.  A page of the resident list never holds more residents than the
    page size, which is the requested size when positive, at most 100, and
    10 otherwise; for a permitted request the answer is 200 exactly for the
    pages 1 to [num_pages], with the length of the whole listing as count,
    and 404 for any other page; page 1 exists also for an empty listing. *)
Theorem X23_list_pages (request : Request) (params : QueryParams)
    (requested : option nat) (page : nat) (table : list Resident) :
  let resp := ResidentViewSet_list request params requested page table in
  let qs := get_queryset params table in
  let size := get_page_size requested in
  1 ≤ size ≤ 100 ∧
  (requested = None ∨ requested = Some 0 → size = 10) ∧
  length (page_results resp) ≤ size ∧
  (has_permission request "list" = true →
     (1 ≤ page ≤ num_pages (length qs) size →
        resp = mkResponse HTTP_200_OK
                 (ResidentPage (length qs) (take size (drop ((page - 1) * size) qs)))) ∧
     (¬ (1 ≤ page ≤ num_pages (length qs) size) → status resp = HTTP_404_NOT_FOUND) ∧
     1 ≤ num_pages (length qs) size).
Proof.
  intros resp qs size.
  pose proof (get_page_size_bounds requested) as Hb. unfold max_page_size in Hb.
  split; [done|]. split; [by intros [-> | ->]|]. split.
  - subst resp. unfold ResidentViewSet_list, dispatch. simpl.
    destruct (has_permission request "list"); simpl.
    + case_bool_decide; unfold page_results; simpl; [|lia].
      rewrite length_take. fold size. lia.
    + destruct (permission_denied_body request) as [msg Hmsg].
      unfold page_results. rewrite Hmsg. simpl. lia.
  - intros Hperm. subst resp. unfold ResidentViewSet_list, dispatch. simpl.
    rewrite Hperm. simpl. fold qs size. split; [|split].
    + intros Hpage. by rewrite bool_decide_eq_true_2.
    + intros Hpage. by rewrite bool_decide_eq_false_2.
    + unfold num_pages. lia.
Qed.

Lemma X23_list_pages_witness :
  has_permission (authenticated_request [] (mkAuthenticator (Some "Bearer")) false) "list"
    = true ∧
  ResidentViewSet_list (authenticated_request [] (mkAuthenticator (Some "Bearer")) false)
    (mkQueryParams None None None) (Some 2) 2 [cat; bob; ann]
    = mkResponse HTTP_200_OK (ResidentPage 3 [cat]).
Proof.
  assert (has_permission
            (authenticated_request [] (mkAuthenticator (Some "Bearer")) false) "list"
          = true) as H by reflexivity.
  split; [exact H|].
  exact (proj1 (proj2 (proj2 (proj2
           (X23_list_pages
              (authenticated_request [] (mkAuthenticator (Some "Bearer")) false)
              (mkQueryParams None None None) (Some 2) 2 [cat; bob; ann]))) H)
           ltac:(vm_compute; lia)).
Defined.

(** X24.  For a permitted request the pages 1 to [num_pages], one after the
    other, are the whole listing: no resident is lost between pages and none
    is shown twice. *)
Theorem X24_pages_cover_listing (request : Request) (params : QueryParams)
    (requested : option nat) (table : list Resident) :
  has_permission request "list" = true →
  let qs := get_queryset params table in
  concat (List.map
            (fun page => page_results (ResidentViewSet_list request params requested page table))
            (seq 1 (num_pages (length qs) (get_page_size requested))))
    = qs.
Proof.
  intros Hperm qs.
  set (size := get_page_size requested). set (n := num_pages (length qs) size).
  pose proof (get_page_size_bounds requested) as Hb. fold size in Hb.
  rewrite (List.map_ext_in _ (fun page => take size (drop ((page - 1) * size) qs))).
  - rewrite <-seq_shift, List.map_map.
    rewrite (List.map_ext _ (fun i => take size (drop (i * size) qs)))
      by (intros i; by rewrite Nat.sub_1_r).
    apply chunks_concat, num_pages_covers. lia.
  - intros page [Hlo Hhi]%in_seq.
    unfold ResidentViewSet_list, dispatch. simpl. rewrite Hperm. simpl.
    fold qs size n. rewrite bool_decide_eq_true_2 by lia. done.
Qed.

Lemma X24_pages_cover_listing_witness :
  has_permission (authenticated_request [] (mkAuthenticator (Some "Bearer")) false) "list"
    = true ∧
  concat (List.map
            (fun page =>
               page_results
                 (ResidentViewSet_list
                    (authenticated_request [] (mkAuthenticator (Some "Bearer")) false)
                    (mkQueryParams None None None) (Some 2) page [cat; bob; ann]))
            (seq 1 (num_pages (length (get_queryset (mkQueryParams None None None)
                                          [cat; bob; ann]))
                      (get_page_size (Some 2)))))
    = get_queryset (mkQueryParams None None None) [cat; bob; ann].
Proof.
  assert (has_permission
            (authenticated_request [] (mkAuthenticator (Some "Bearer")) false) "list"
          = true) as H by reflexivity.
  split; [exact H|].
  exact (X24_pages_cover_listing
           (authenticated_request [] (mkAuthenticator (Some "Bearer")) false)
           (mkQueryParams None None None) (Some 2) [cat; bob; ann] H).
Defined.




